(** * Heart Tap Frenzy: the level session engine of [src/app/index.tsx]

    The component [Index] keeps its session in React state ([phase],
    [levelIndex], [score], [timeLeft], the [forceRender] counter), in refs
    ([heartsRef], [spawnTimer], [tickTimer]) and in the JavaScript timer
    queue.  Every handler of the component is embedded as a function on one
    record holding all of these; the event loop is the function [step].

    Conventions of the embedding
    - times are integer milliseconds ([Date.now()]), scores and sizes are
      integers ([Z]); a level index is an array index ([nat]); the draws of
      [Math.random()], the window and the positions are binary64 numbers
      ([float]), multiplied, added and subtracted as JavaScript does;
    - a closure reads the [score] of the render that created it: handlers
      that read [score] take that value as the argument [seen];
    - a handler that reads a field of [LEVELS[idx]] for an [idx] outside the
      array raises a [TypeError]: [Threw] carries the state at that point;
    - the haptic calls ([softHaptic], [successHaptic]) touch no state and are
      taken to settle within the turn that awaits them, so a handler runs
      as one turn of the event loop;
    - [spawnTimer] and [tickTimer] are only assigned right after
      [clearTimers], so each ref holds the one interval of its kind that the
      runtime has pending; the [setTimeout] of [endLevel] is kept in a queue
      of its own;
    - the runtime fires a timer no earlier than it is due and fires timers in
      the order of their due times; [Date.now()] never goes back;
    - [anim.stop()] makes the callback of [anim.start] see
      [finished = false], which returns at once: a heart that left the list
      has no completion left to deliver. *)

From Stdlib Require Import ZArith PrimFloat FloatOps SpecFloat Uint63.
From Stdlib Require Import List Sorted String Bool Lia.
Import ListNotations.
Open Scope Z_scope.

(** ** Data *)

Inductive Phase := intro | playing | reward | proposal.

Record Level := {
  level : Z;
  durationMs : Z;
  target : Z;
  spawnEveryMs : Z;
  fallMs : Z
}.

Definition LEVELS : list Level :=
  [ {| level := 1; durationMs := 20000; target := 18; spawnEveryMs := 700; fallMs := 2800 |};
    {| level := 2; durationMs := 20000; target := 22; spawnEveryMs := 600; fallMs := 2400 |};
    {| level := 3; durationMs := 22000; target := 26; spawnEveryMs := 520; fallMs := 2100 |} ].

(** [uid()] is the string [`${Date.now()}-${Math.random().toString(16).slice(2)}`]:
    the two interpolated pieces, which the string determines and is
    determined by. *)
Record HeartId := { id_ms : Z; id_hex : string }.

Definition uid (ms : Z) (hex : string) : HeartId := {| id_ms := ms; id_hex := hex |}.

Definition id_eqb (a b : HeartId) : bool :=
  (id_ms a =? id_ms b) && String.eqb (id_hex a) (id_hex b).

(** [Animated.timing(y, { toValue, duration })]. *)
Record Timing := { toValue : float; duration : Z }.

Record Heart := {
  id : HeartId;
  x : float;
  size : Z;
  y : float;
  anim : Timing
}.

(** The countdown interval of [startLevel]: its closure holds [idx],
    [startAt] and, through [endLevel], the [score] of the render in which
    [startLevel] was called. *)
Record TickTimer := { tk_idx : nat; tk_startAt : Z; tk_score : Z; tk_due : Z }.

(** The spawner interval of [startLevel]. *)
Record SpawnTimer := { sp_idx : nat; sp_every : Z; sp_due : Z }.

Record State := {
  phase : Phase;
  levelIndex : nat;
  score : Z;
  timeLeft : Z;
  renders : Z;
  hearts : list Heart;
  spawnTimer : option SpawnTimer;
  tickTimer : option TickTimer;
  graceTimers : list Z;
  now : Z
}.

(** What the spec calls the session state: phase, score, remaining time,
    level index and live objects. *)
Definition session (st : State) : Phase * Z * Z * nat * list Heart :=
  (phase st, score st, timeLeft st, levelIndex st, hearts st).

Definition initial (t0 : Z) : State :=
  {| phase := intro; levelIndex := 0; score := 0; timeLeft := 0; renders := 0;
     hearts := []; spawnTimer := None; tickTimer := None; graceTimers := [];
     now := t0 |}.

(** Outcome of running a handler. *)
Inductive Completion :=
| Returned (st : State)
| Threw (st : State).

Definition settle (c : Completion) : State :=
  match c with Returned st | Threw st => st end.

(** ** State setters *)

Definition setPhase (p : Phase) (st : State) : State :=
  {| phase := p; levelIndex := levelIndex st; score := score st;
     timeLeft := timeLeft st; renders := renders st; hearts := hearts st;
     spawnTimer := spawnTimer st; tickTimer := tickTimer st;
     graceTimers := graceTimers st; now := now st |}.

Definition setLevelIndex (i : nat) (st : State) : State :=
  {| phase := phase st; levelIndex := i; score := score st;
     timeLeft := timeLeft st; renders := renders st; hearts := hearts st;
     spawnTimer := spawnTimer st; tickTimer := tickTimer st;
     graceTimers := graceTimers st; now := now st |}.

Definition setScore (s : Z) (st : State) : State :=
  {| phase := phase st; levelIndex := levelIndex st; score := s;
     timeLeft := timeLeft st; renders := renders st; hearts := hearts st;
     spawnTimer := spawnTimer st; tickTimer := tickTimer st;
     graceTimers := graceTimers st; now := now st |}.

Definition setTimeLeft (t : Z) (st : State) : State :=
  {| phase := phase st; levelIndex := levelIndex st; score := score st;
     timeLeft := t; renders := renders st; hearts := hearts st;
     spawnTimer := spawnTimer st; tickTimer := tickTimer st;
     graceTimers := graceTimers st; now := now st |}.

Definition forceRender (st : State) : State :=
  {| phase := phase st; levelIndex := levelIndex st; score := score st;
     timeLeft := timeLeft st; renders := renders st + 1; hearts := hearts st;
     spawnTimer := spawnTimer st; tickTimer := tickTimer st;
     graceTimers := graceTimers st; now := now st |}.

Definition setHearts (hs : list Heart) (st : State) : State :=
  {| phase := phase st; levelIndex := levelIndex st; score := score st;
     timeLeft := timeLeft st; renders := renders st; hearts := hs;
     spawnTimer := spawnTimer st; tickTimer := tickTimer st;
     graceTimers := graceTimers st; now := now st |}.

Definition setSpawnTimer (t : option SpawnTimer) (st : State) : State :=
  {| phase := phase st; levelIndex := levelIndex st; score := score st;
     timeLeft := timeLeft st; renders := renders st; hearts := hearts st;
     spawnTimer := t; tickTimer := tickTimer st;
     graceTimers := graceTimers st; now := now st |}.

Definition setTickTimer (t : option TickTimer) (st : State) : State :=
  {| phase := phase st; levelIndex := levelIndex st; score := score st;
     timeLeft := timeLeft st; renders := renders st; hearts := hearts st;
     spawnTimer := spawnTimer st; tickTimer := t;
     graceTimers := graceTimers st; now := now st |}.

Definition setGraceTimers (g : list Z) (st : State) : State :=
  {| phase := phase st; levelIndex := levelIndex st; score := score st;
     timeLeft := timeLeft st; renders := renders st; hearts := hearts st;
     spawnTimer := spawnTimer st; tickTimer := tickTimer st;
     graceTimers := g; now := now st |}.

Definition setNow (t : Z) (st : State) : State :=
  {| phase := phase st; levelIndex := levelIndex st; score := score st;
     timeLeft := timeLeft st; renders := renders st; hearts := hearts st;
     spawnTimer := spawnTimer st; tickTimer := tickTimer st;
     graceTimers := graceTimers st; now := t |}.

(** ** Handlers *)

(** [Math.ceil(n / d)] on integers. *)
Definition ceil_div (n d : Z) : Z := - ((- n) / d).

Definition clearTimers (st : State) : State :=
  setTickTimer None (setSpawnTimer None st).

(** Every animation is stopped (its callback then sees [finished = false]
    and returns) and the list is replaced by the empty one. *)
Definition clearHearts (st : State) : State :=
  forceRender (setHearts [] st).

Definition startLevel (idx : nat) (st : State) : Completion :=
  let seen := score st in
  let st := clearHearts (clearTimers st) in
  let st := setScore 0 (setLevelIndex idx st) in
  match nth_error LEVELS idx with
  | None => Threw st
  | Some lv =>
      let st := setPhase playing (setTimeLeft (ceil_div (durationMs lv) 1000) st) in
      let startAt := now st in
      let st := setTickTimer
                  (Some {| tk_idx := idx; tk_startAt := startAt;
                           tk_score := seen; tk_due := startAt + 250 |}) st in
      Returned
        (setSpawnTimer
           (Some {| sp_idx := idx; sp_every := spawnEveryMs lv;
                    sp_due := now st + spawnEveryMs lv |}) st)
  end.

Definition endLevel (seen : Z) (idx : nat) (st : State) : Completion :=
  let st := clearTimers st in
  match nth_error LEVELS idx with
  | None => Threw st
  | Some lv =>
      let passed := target lv <=? seen in
      let st := setGraceTimers (graceTimers st ++ [now st + 250]) st in
      if negb passed then Returned (setPhase reward st)
      else if Z.of_nat idx <? Z.of_nat (List.length LEVELS) - 1
           then Returned (setPhase reward st)
           else Returned (setPhase proposal st)
  end.

(** The phase [endLevel] leaves for, as one expression. *)
Definition resolvedPhase (lv : Level) (seen : Z) (idx : nat) : Phase :=
  if (target lv <=? seen) && negb (Z.of_nat idx <? Z.of_nat (List.length LEVELS) - 1)
  then proposal else reward.

(** The three [Math.random()] draws of [spawnHeart] and the one of [uid]. *)
Record Rolls := { r_size : float; r_x : float; r_hex : string; r_fall : float }.

(** [Math.random()] returns a number that is at least 0 and less than 1. *)
Definition unit_roll (q : float) : bool :=
  PrimFloat.leb 0%float q && PrimFloat.ltb q 1%float.

(** [Math.floor] of a finite number, as an integer: the number is
    [m * 2 ^ e], negated when the sign is set.  (No product of a draw of
    [Math.random()] with 22 or 600 is infinite or not a number.) *)
Definition floorZ (f : float) : Z :=
  match Prim2SF f with
  | S754_finite s m e =>
      let n := if s then Z.neg m else Z.pos m in
      if 0 <=? e then n * 2 ^ e else n / 2 ^ (- e)
  | _ => 0
  end.

(** A non-negative integer below [2 ^ 53] as a number, exactly. *)
Definition Z2F (z : Z) : float := PrimFloat.of_uint63 (Uint63.of_Z z).

Definition rolls_ok (r : Rolls) : bool :=
  unit_roll (r_size r) && unit_roll (r_x r) && unit_roll (r_fall r).

(** A 390 x 844 window, for the concrete runs. *)
Definition W : float := 390%float.
Definition H : float := 844%float.

Section Window.

(** [Dimensions.get("window")]. *)
Variables SCREEN_W SCREEN_H : float.

Definition spawnHeart (idx : nat) (r : Rolls) (st : State) : Completion :=
  let padding := 24%float in
  let size := 28 + floorZ (r_size r * 22)%float in
  let x := (padding + r_x r * (SCREEN_W - padding * 2 - Z2F size))%float in
  let y := (-60)%float in
  match nth_error LEVELS idx with
  | None => Threw st
  | Some lv =>
      let duration := fallMs lv + floorZ (r_fall r * 600)%float in
      let heart :=
        {| id := uid (now st) (r_hex r); x := x; size := size; y := y;
           anim := {| toValue := (SCREEN_H + 80)%float; duration := duration |} |} in
      Returned (forceRender (setHearts (hearts st ++ [heart]) st))
  end.

Definition has_id (i : HeartId) (h : Heart) : bool := id_eqb (id h) i.

Definition without (i : HeartId) (hs : list Heart) : list Heart :=
  filter (fun h => negb (has_id i h)) hs.

(** The completion callback of [anim.start] with [finished = true]. *)
Definition fallFinished (i : HeartId) (st : State) : State :=
  forceRender (setHearts (without i (hearts st)) st).

Definition onTapHeart (i : HeartId) (st : State) : State :=
  match find (has_id i) (hearts st) with
  | None => st
  | Some _ =>
      let st := setHearts (without i (hearts st)) st in
      forceRender (setScore (score st + 1) st)
  end.

(** The callback of the countdown interval. *)
Definition tick (tk : TickTimer) (st : State) : Completion :=
  match nth_error LEVELS (tk_idx tk) with
  | None => Threw st
  | Some lv =>
      let elapsed := now st - tk_startAt tk in
      let left := Z.max 0 (ceil_div (durationMs lv - elapsed) 1000) in
      let st := setTimeLeft left st in
      if left <=? 0 then endLevel (tk_score tk) (tk_idx tk) st else Returned st
  end.

(** The two [onPress] handlers that leave for the intro screen. *)
Definition backToIntro (st : State) : State :=
  setPhase intro (clearHearts (clearTimers st)).

(** ** The reward screen *)

Inductive Button := NextLevel | OpenSurprise | Retry.

Definition Button_eqb (a b : Button) : bool :=
  match a, b with
  | NextLevel, NextLevel | OpenSurprise, OpenSurprise | Retry, Retry => true
  | _, _ => false
  end.

(** [current = LEVELS[levelIndex]]; the reward screen reads [current.target]. *)
Definition current (st : State) : option Level := nth_error LEVELS (levelIndex st).

Definition success (lv : Level) (st : State) : bool := target lv <=? score st.

Definition rewardButton (lv : Level) (st : State) : Button :=
  if success lv st && (Z.of_nat (levelIndex st) <? Z.of_nat (List.length LEVELS) - 1)
  then NextLevel
  else if success lv st && (Z.of_nat (levelIndex st) >=? Z.of_nat (List.length LEVELS) - 1)
  then OpenSurprise
  else Retry.

Definition offered (b : Button) (st : State) : bool :=
  match phase st, current st with
  | reward, Some lv => Button_eqb (rewardButton lv st) b
  | _, _ => false
  end.

(** ** The event loop *)

(** What the runtime and the player deliver.  A tap is delivered as the turn
    in which [onTapHeart] resumes after [softHaptic], so it may find its
    heart gone and the screen changed. *)
Inductive Event :=
| Elapse (dt : Z)          (* [dt] milliseconds pass *)
| TickFire                 (* the countdown interval *)
| SpawnFire (r : Rolls)    (* the spawner interval *)
| GraceFire                (* the oldest pending [setTimeout] of [endLevel] *)
| FallDone (i : HeartId)   (* the fall of heart [i] ran to its end *)
| Tap (i : HeartId)        (* [onTapHeart(i)] *)
| PressStart               (* intro screen: Start *)
| PressNext                (* reward screen: Next Level *)
| PressOpen                (* reward screen: Open Surprise *)
| PressRetry               (* reward screen: Retry *)
| PressBack                (* reward screen: Back to Start *)
| PressQuit                (* playing screen: Quit *)
| PressFinish              (* playing screen: Finish *)
| PressYes.                (* proposal screen: either YES button *)

(** Due times of the pending JavaScript timers. *)
Definition pending (st : State) : list Z :=
  match tickTimer st with Some tk => [tk_due tk] | None => [] end ++
  match spawnTimer st with Some sp => [sp_due sp] | None => [] end ++
  graceTimers st.

(** A timer fires no earlier than its due time and no later than a timer
    that is due after it. *)
Definition fires (d : Z) (st : State) : bool :=
  (d <=? now st) && forallb (fun d' => d <=? d') (pending st).

(** [step st e] is [None] when [e] cannot be delivered in [st]: the timer is
    not due or not the next one, the button is not on the screen shown. *)
Definition step (st : State) (e : Event) : option State :=
  match e with
  | Elapse dt =>
      if 0 <=? dt then Some (setNow (now st + dt) st) else None
  | TickFire =>
      match tickTimer st with
      | Some tk =>
          if fires (tk_due tk) st then
            let tk' := {| tk_idx := tk_idx tk; tk_startAt := tk_startAt tk;
                          tk_score := tk_score tk; tk_due := now st + 250 |} in
            Some (settle (tick tk (setTickTimer (Some tk') st)))
          else None
      | None => None
      end
  | SpawnFire r =>
      match spawnTimer st with
      | Some sp =>
          if fires (sp_due sp) st && rolls_ok r then
            let sp' := {| sp_idx := sp_idx sp; sp_every := sp_every sp;
                          sp_due := now st + sp_every sp |} in
            Some (settle (spawnHeart (sp_idx sp) r
                            (setSpawnTimer (Some sp') st)))
          else None
      | None => None
      end
  | GraceFire =>
      match graceTimers st with
      | d :: rest =>
          if fires d st then Some (clearHearts (setGraceTimers rest st)) else None
      | [] => None
      end
  | FallDone i =>
      match find (has_id i) (hearts st) with
      | Some h =>
          if id_ms (id h) + duration (anim h) <=? now st
          then Some (fallFinished i st) else None
      | None => None
      end
  | Tap i => Some (onTapHeart i st)
  | PressStart =>
      match phase st with
      | intro => Some (settle (startLevel 0 st))
      | _ => None
      end
  | PressNext =>
      if offered NextLevel st
      then Some (settle (startLevel (levelIndex st + 1) st)) else None
  | PressOpen =>
      if offered OpenSurprise st then Some (setPhase proposal st) else None
  | PressRetry =>
      if offered Retry st
      then Some (settle (startLevel (levelIndex st) st)) else None
  | PressBack =>
      match phase st, current st with
      | reward, Some _ => Some (backToIntro st)
      | _, _ => None
      end
  | PressQuit =>
      match phase st with
      | playing => Some (backToIntro st)
      | _ => None
      end
  | PressFinish =>
      match phase st with
      | playing => Some (settle (endLevel (score st) (levelIndex st) st))
      | _ => None
      end
  | PressYes =>
      match phase st with
      | proposal => Some st
      | _ => None
      end
  end.

Fixpoint run (st : State) (es : list Event) : option State :=
  match es with
  | [] => Some st
  | e :: es' =>
      match step st e with
      | Some st' => run st' es'
      | None => None
      end
  end.

Inductive reachable : State -> Prop :=
| reach_initial t0 : reachable (initial t0)
| reach_step st e st' : reachable st -> step st e = Some st' -> reachable st'.

(** ** A scripted player

    [nextTimer] picks what the runtime delivers next: the pending timer or
    fall completion that is due first.  [autoplay goal] lets the runtime run
    and, while [0 < goal], taps every heart as it appears and presses Finish
    once [goal] taps are registered; with [goal = 0] it never touches the
    screen. *)

Definition earlier (a b : Z * Event) : Z * Event :=
  if fst b <? fst a then b else a.

Definition nextTimer (r : Rolls) (st : State) : option (Z * Event) :=
  let cs :=
    match tickTimer st with Some tk => [(tk_due tk, TickFire)] | None => [] end ++
    match spawnTimer st with Some sp => [(sp_due sp, SpawnFire r)] | None => [] end ++
    match graceTimers st with d :: _ => [(d, GraceFire)] | [] => [] end ++
    map (fun h => (id_ms (id h) + duration (anim h), FallDone (id h))) (hearts st) in
  match cs with
  | [] => None
  | c :: cs' => Some (fold_left earlier cs' c)
  end.

Definition still : Rolls :=
  {| r_size := 0; r_x := 0; r_hex := "8"; r_fall := 0 |}.

Fixpoint autoplay (goal : Z) (fuel : nat) (st : State) : list Event :=
  match fuel with
  | O => []
  | S fuel' =>
      match phase st with
      | playing =>
          if (0 <? goal) && (goal <=? score st) then [PressFinish]
          else
            match nextTimer still st with
            | None => []
            | Some (d, e) =>
                let t := Z.max d (now st) in
                let es := [Elapse (t - now st); e] ++
                          match e with
                          | SpawnFire r => if 0 <? goal then [Tap (uid t (r_hex r))] else []
                          | _ => []
                          end in
                match run st es with
                | Some st' => es ++ autoplay goal fuel' st'
                | None => []
                end
            end
      | _ => []
      end
  end.

Definition andThen (es : list Event) (k : State -> list Event) (st : State) : list Event :=
  es ++ match run st es with Some st' => k st' | None => [] end.

(** Level 1 with 18 taps, level 2 with 26 taps, then level 3 left alone
    until its countdown runs out. *)
Definition idle_final_level : list Event :=
  andThen [PressStart] (fun s =>
  andThen (autoplay 18 400 s) (fun s =>
  andThen [PressNext] (fun s =>
  andThen (autoplay 26 400 s) (fun s =>
  andThen [PressNext] (autoplay 0 400) s) s) s) s) (initial 0).

(** Level 1 with 18 taps, level 2 with 22 taps, then every heart of level 3
    tapped until its countdown runs out. *)
Definition busy_final_level : list Event :=
  andThen [PressStart] (fun s =>
  andThen (autoplay 18 400 s) (fun s =>
  andThen [PressNext] (fun s =>
  andThen (autoplay 22 400 s) (fun s =>
  andThen [PressNext] (autoplay 1000 400) s) s) s) s) (initial 0).

(** One heart in flight on level 1. *)
Definition one_heart : list Event :=
  [PressStart; Elapse 250; TickFire; Elapse 250; TickFire; Elapse 200; SpawnFire still].

(** ** Observations on a run *)



Definition isGraceFire (e : Event) : bool :=
  match e with GraceFire => true | _ => false end.


(** Events delivered one after the other, each while the level is running. *)
Inductive playing_run : State -> list Event -> State -> Prop :=
| playing_nil st : playing_run st [] st
| playing_cons st e st' es st'' :
    phase st = playing ->
    step st e = Some st' ->
    playing_run st' es st'' ->
    playing_run st (e :: es) st''.

(** The milliseconds left of level [lv], started at [startAt], at time [t]. *)
Definition remaining (lv : Level) (startAt t : Z) : Z :=
  Z.max 0 (durationMs lv - (t - startAt)).

(** ** Invariant of the reachable states *)

Record Inv (st : State) : Prop := {
  inv_index : (levelIndex st < List.length LEVELS)%nat;
  inv_idle : phase st <> playing -> tickTimer st = None /\ spawnTimer st = None;
  inv_tick : forall tk, tickTimer st = Some tk ->
      tk_idx tk = levelIndex st /\
      exists lv, nth_error LEVELS (tk_idx tk) = Some lv /\
        Z.max 0 (ceil_div (durationMs lv - (now st - tk_startAt tk)) 1000) <= timeLeft st;
  inv_spawn : forall sp, spawnTimer st = Some sp ->
      sp_idx sp = levelIndex st /\ 0 < sp_every sp;
  inv_grace : forall d, In d (graceTimers st) -> d <= now st + 250;
  inv_ids : forall h, In h (hearts st) ->
      id_ms (id h) <= now st /\
      forall sp, spawnTimer st = Some sp -> id_ms (id h) < sp_due sp
}.

(** The first [k] pending grace timeouts predate the level in progress:
    nothing was spawned since, and nothing will be before they have fired. *)
Definition quiet (k : nat) (st : State) : Prop :=
  (k <= List.length (graceTimers st))%nat /\
  ((0 < k)%nat ->
   hearts st = [] /\
   forall sp, spawnTimer st = Some sp ->
   forall d, In d (firstn k (graceTimers st)) -> d < sp_due sp).


(** ** Further observations *)

Definition isSpawnFire (e : Event) : bool :=
  match e with SpawnFire _ => true | _ => false end.

(** Draws that binary64 holds exactly. *)
Definition lively : Rolls :=
  {| r_size := 0.5; r_x := 0.5; r_hex := "c4"; r_fall := 0.25 |}.

(** The [Date.now()] part of a heart's id: the time [spawnHeart] made it. *)
Definition born (h : Heart) : Z := id_ms (id h).

(** Bounds that hold in every reachable state, besides [Inv]. *)
Record Bounds (st : State) : Prop := {
  b_score : 0 <= score st;
  b_time : exists lv, current st = Some lv /\
             0 <= timeLeft st <= ceil_div (durationMs lv) 1000;
  b_tick : forall tk, tickTimer st = Some tk ->
             tk_startAt tk <= now st /\ tk_due tk <= now st + 250;
  b_spawn : forall sp, spawnTimer st = Some sp ->
             sp_due sp <= now st + sp_every sp /\
             exists lv, current st = Some lv /\ sp_every sp = spawnEveryMs lv;
  b_armed : phase st = playing -> tickTimer st <> None /\ spawnTimer st <> None;
  b_sorted : StronglySorted Z.lt (map born (hearts st));
  b_last : phase st = proposal -> S (levelIndex st) = List.length LEVELS
}.

(** ** Basic facts *)

Lemma Some_inj {A : Type} (a b : A) : Some a = Some b -> a = b.
Proof. intros [= E]. exact E. Qed.

Lemma id_eqb_eq (a b : HeartId) : id_eqb a b = true <-> a = b.
Proof.
  unfold id_eqb. rewrite andb_true_iff, Z.eqb_eq, String.eqb_eq.
  destruct a as [m h], b as [m' h']; cbn. split.
  - intros [-> ->]. reflexivity.
  - intros [= -> ->]. split; reflexivity.
Qed.

Lemma id_eqb_refl (a : HeartId) : id_eqb a a = true.
Proof. apply id_eqb_eq. reflexivity. Qed.

Lemma ceil_div_spec (n : Z) :
  1000 * (ceil_div n 1000 - 1) < n <= 1000 * ceil_div n 1000.
Proof.
  unfold ceil_div.
  pose proof (Z.div_mod (- n) 1000 ltac:(lia)) as E.
  pose proof (Z.mod_pos_bound (- n) 1000 ltac:(lia)) as B.
  lia.
Qed.

Lemma ceil_div_mono (a b : Z) : a <= b -> ceil_div a 1000 <= ceil_div b 1000.
Proof.
  intros Hab.
  pose proof (ceil_div_spec a). pose proof (ceil_div_spec b). lia.
Qed.

Lemma ceil_div_max (n : Z) :
  Z.max 0 (ceil_div n 1000) = ceil_div (Z.max 0 n) 1000.
Proof.
  pose proof (ceil_div_spec n). pose proof (ceil_div_spec (Z.max 0 n)). lia.
Qed.

Lemma ceil_div_zero_iff (n : Z) : 0 <= n -> (ceil_div n 1000 = 0 <-> n = 0).
Proof. intros Hn. pose proof (ceil_div_spec n). lia. Qed.

Lemma LEVELS_facts (idx : nat) (lv : Level) :
  nth_error LEVELS idx = Some lv ->
  (idx < List.length LEVELS)%nat /\
  250 < spawnEveryMs lv /\
  0 < durationMs lv /\
  1000 * ceil_div (durationMs lv) 1000 = durationMs lv.
Proof.
  destruct idx as [|[|[|idx]]]; cbn.
  1-3: intros [= <-]; cbn; repeat split; lia.
  destruct idx; discriminate.
Qed.

Lemma LEVELS_some (idx : nat) :
  (idx < List.length LEVELS)%nat -> exists lv, nth_error LEVELS idx = Some lv.
Proof.
  intros Hlt. destruct (nth_error LEVELS idx) as [lv|] eqn:E.
  - exists lv. reflexivity.
  - apply nth_error_None in E. lia.
Qed.

Lemma without_In (i : HeartId) (hs : list Heart) (h : Heart) :
  In h (without i hs) <-> In h hs /\ id h <> i.
Proof.
  unfold without. rewrite filter_In. unfold has_id.
  split; intros [Hin Hne]; split; auto.
  - intros E. rewrite E, id_eqb_refl in Hne. discriminate.
  - destruct (id_eqb (id h) i) eqn:E; [|reflexivity].
    apply id_eqb_eq in E. contradiction.
Qed.

Lemma without_absent (i : HeartId) (hs : list Heart) :
  find (has_id i) hs = None -> without i hs = hs.
Proof.
  intros Hf. unfold without. induction hs as [|h hs IH]; cbn in *.
  - reflexivity.
  - destruct (has_id i h); [discriminate|]. cbn. f_equal. apply IH, Hf.
Qed.

Lemma find_without (i : HeartId) (hs : list Heart) :
  find (has_id i) (without i hs) = None.
Proof.
  unfold without. induction hs as [|h hs IH]; cbn.
  - reflexivity.
  - destruct (has_id i h) eqn:E; cbn; [exact IH|]. rewrite E. exact IH.
Qed.

Lemma find_existsb (i : HeartId) (hs : list Heart) :
  existsb (has_id i) hs = true <-> exists h, find (has_id i) hs = Some h.
Proof.
  induction hs as [|h hs IH]; cbn.
  - split; [discriminate | intros [h [=]]].
  - destruct (has_id i h); cbn.
    + split; [eauto | reflexivity].
    + exact IH.
Qed.

Lemma find_has_id (i : HeartId) (hs : list Heart) (h : Heart) :
  find (has_id i) hs = Some h -> In h hs /\ id h = i.
Proof.
  intros Hf. apply find_some in Hf. destruct Hf as [Hin Hid].
  split; [exact Hin|]. apply id_eqb_eq. exact Hid.
Qed.

Lemma fires_due (d : Z) (st : State) :
  fires d st = true -> d <= now st /\ forall d', In d' (pending st) -> d <= d'.
Proof.
  unfold fires. rewrite andb_true_iff, Z.leb_le, forallb_forall.
  intros [Hd Hall]. split; [exact Hd|].
  intros d' Hin. apply Z.leb_le, Hall, Hin.
Qed.

(** ** What the handlers return *)

Lemma startLevel_ok (st : State) (idx : nat) (lv : Level) :
  nth_error LEVELS idx = Some lv ->
  exists st',
    startLevel idx st = Returned st' /\
    phase st' = playing /\ levelIndex st' = idx /\ score st' = 0 /\
    timeLeft st' = ceil_div (durationMs lv) 1000 /\ hearts st' = [] /\
    tickTimer st' = Some {| tk_idx := idx; tk_startAt := now st;
                            tk_score := score st; tk_due := now st + 250 |} /\
    spawnTimer st' = Some {| sp_idx := idx; sp_every := spawnEveryMs lv;
                             sp_due := now st + spawnEveryMs lv |} /\
    graceTimers st' = graceTimers st /\ now st' = now st /\
    renders st' = renders st + 1.
Proof.
  intros Hlv. unfold startLevel. rewrite Hlv.
  eexists. split; [reflexivity|]. cbn. repeat split; reflexivity.
Qed.

Lemma startLevel_throws (st : State) (idx : nat) :
  (List.length LEVELS <= idx)%nat ->
  startLevel idx st =
  Threw (setScore 0 (setLevelIndex idx (clearHearts (clearTimers st)))).
Proof.
  intros Hge. unfold startLevel.
  destruct (nth_error LEVELS idx) eqn:E; [|reflexivity].
  assert (nth_error LEVELS idx <> None) as Hne by congruence.
  apply nth_error_Some in Hne. lia.
Qed.

Lemma endLevel_ok (st : State) (seen : Z) (idx : nat) (lv : Level) :
  nth_error LEVELS idx = Some lv ->
  exists st',
    endLevel seen idx st = Returned st' /\
    phase st' = resolvedPhase lv seen idx /\
    tickTimer st' = None /\ spawnTimer st' = None /\
    graceTimers st' = graceTimers st ++ [now st + 250] /\
    hearts st' = hearts st /\ score st' = score st /\
    timeLeft st' = timeLeft st /\ levelIndex st' = levelIndex st /\
    now st' = now st /\ renders st' = renders st.
Proof.
  intros Hlv. unfold endLevel, resolvedPhase. rewrite Hlv.
  destruct (target lv <=? seen); cbn [negb andb].
  - destruct (Z.of_nat idx <? Z.of_nat (List.length LEVELS) - 1); cbn [negb];
      eexists; (split; [reflexivity|]); cbn; repeat split; reflexivity.
  - eexists; (split; [reflexivity|]); cbn; repeat split; reflexivity.
Qed.

Lemma resolvedPhase_resolved (lv : Level) (seen : Z) (idx : nat) :
  resolvedPhase lv seen idx = reward \/ resolvedPhase lv seen idx = proposal.
Proof. unfold resolvedPhase. destruct (_ && _); auto. Qed.

Lemma offered_reward (b : Button) (st : State) :
  offered b st = true ->
  phase st = reward /\
  exists lv, current st = Some lv /\ rewardButton lv st = b.
Proof.
  unfold offered. destruct (phase st); try discriminate.
  destruct (current st) as [lv|]; [|discriminate].
  intros Hb. split; [reflexivity|]. exists lv. split; [reflexivity|].
  destruct (rewardButton lv st), b; cbn in Hb; congruence.
Qed.

Lemma rewardButton_next (lv : Level) (st : State) :
  rewardButton lv st = NextLevel ->
  target lv <= score st /\ (levelIndex st + 1 < List.length LEVELS)%nat.
Proof.
  unfold rewardButton, success.
  destruct (target lv <=? score st) eqn:Hs; cbn [andb].
  - destruct (Z.of_nat (levelIndex st) <? Z.of_nat (List.length LEVELS) - 1) eqn:Hl.
    + intros _. apply Z.leb_le in Hs. apply Z.ltb_lt in Hl. lia.
    + destruct (_ >=? _); discriminate.
  - discriminate.
Qed.

(** ** The invariant holds in every reachable state *)

Lemma initial_Inv (t0 : Z) : Inv (initial t0).
Proof.
  constructor; cbn; try discriminate; try contradiction; auto.
Qed.

Lemma startLevel_Inv (st st' : State) (idx : nat) :
  Inv st -> (idx < List.length LEVELS)%nat ->
  settle (startLevel idx st) = st' -> Inv st'.
Proof.
  intros I Hidx <-.
  destruct (LEVELS_some idx Hidx) as [lv Hlv].
  destruct (startLevel_ok st idx lv Hlv)
    as (s & -> & Hph & Hli & Hsc & Htl & Hhs & Htk & Hsp & Hgr & Hnow & _).
  destruct (LEVELS_facts idx lv Hlv) as (_ & Hev & Hdur & Hsec).
  cbn [settle]. constructor.
  - rewrite Hli. exact Hidx.
  - intros Hne. congruence.
  - intros tk. rewrite Htk. intros [= <-]. cbn. split; [congruence|].
    exists lv. split; [exact Hlv|]. rewrite Hnow, Htl, Z.sub_diag, Z.sub_0_r. lia.
  - intros sp. rewrite Hsp. intros [= <-]. cbn. split; [congruence | lia].
  - intros d. rewrite Hgr, Hnow. apply I.
  - intros h. rewrite Hhs. contradiction.
Qed.

Lemma endLevel_Inv (st st' : State) (seen : Z) (idx : nat) :
  (levelIndex st < List.length LEVELS)%nat ->
  (forall d, In d (graceTimers st) -> d <= now st + 250) ->
  (forall h, In h (hearts st) -> id_ms (id h) <= now st) ->
  (idx < List.length LEVELS)%nat ->
  settle (endLevel seen idx st) = st' -> Inv st'.
Proof.
  intros Hli Hg Hh Hidx <-.
  destruct (LEVELS_some idx Hidx) as [lv Hlv].
  destruct (endLevel_ok st seen idx lv Hlv)
    as (s & -> & Hph & Htk & Hsp & Hgr & Hhs & _ & _ & Hli' & Hnow & _).
  cbn [settle]. constructor.
  - rewrite Hli'. exact Hli.
  - auto.
  - intros tk. rewrite Htk. discriminate.
  - intros sp. rewrite Hsp. discriminate.
  - intros d. rewrite Hgr, Hnow, in_app_iff. cbn. intros [Hin|[<-|[]]]; [auto | lia].
  - intros h. rewrite Hhs, Hnow, Hsp. intros Hin. split; [auto | discriminate].
Qed.

Lemma backToIntro_Inv (st : State) : Inv st -> Inv (backToIntro st).
Proof.
  intros I. constructor; cbn; try discriminate; try contradiction; auto; apply I.
Qed.

Lemma tick_Inv (st st' : State) (tk : TickTimer) :
  Inv st -> tickTimer st = Some tk ->
  settle (tick tk (setTickTimer
                     (Some {| tk_idx := tk_idx tk; tk_startAt := tk_startAt tk;
                              tk_score := tk_score tk; tk_due := now st + 250 |}) st)) = st' ->
  Inv st'.
Proof.
  intros I Htk <-.
  destruct (inv_tick st I tk Htk) as (Hidx & lv & Hlv & Hle).
  unfold tick. rewrite Hlv. cbn [now setTickTimer].
  set (left := Z.max 0 (ceil_div (durationMs lv - (now st - tk_startAt tk)) 1000)).
  destruct (left <=? 0).
  - eapply endLevel_Inv; [..|reflexivity]; cbn.
    + apply I.
    + apply I.
    + intros h Hin. apply I, Hin.
    + rewrite Hidx. apply I.
  - cbn [settle]. constructor; cbn; try apply I.
    + intros Hne. destruct (inv_idle st I Hne) as [Hnone _]. congruence.
    + intros tk' [= <-]. cbn. split; [exact Hidx|].
      exists lv. split; [exact Hlv|]. fold left. lia.
Qed.

Lemma spawn_Inv (st st' : State) (sp : SpawnTimer) (r : Rolls) :
  Inv st -> spawnTimer st = Some sp -> sp_due sp <= now st ->
  settle (spawnHeart (sp_idx sp) r
            (setSpawnTimer
               (Some {| sp_idx := sp_idx sp; sp_every := sp_every sp;
                        sp_due := now st + sp_every sp |}) st)) = st' ->
  Inv st'.
Proof.
  intros I Hsp Hdue <-.
  destruct (inv_spawn st I sp Hsp) as (Hidx & Hev).
  destruct (LEVELS_some (sp_idx sp)) as [lv Hlv].
  { rewrite Hidx. apply I. }
  unfold spawnHeart. rewrite Hlv. cbn [settle]. constructor; cbn; try apply I.
  - intros Hne. destruct (inv_idle st I Hne) as [_ Hnone]. congruence.
  - intros sp' [= <-]. cbn. split; [exact Hidx | exact Hev].
  - intros h Hin. apply in_app_iff in Hin. cbn in Hin.
    destruct Hin as [Hin|[<-|[]]]; cbn.
    + destruct (inv_ids st I h Hin) as [Hnow Hlt].
      split; [exact Hnow|]. intros sp' [= <-]. cbn. lia.
    + split; [lia|]. intros sp' [= <-]. cbn. lia.
Qed.

Lemma without_Inv (st : State) (i : HeartId) (f : State -> State) :
  (forall s, phase (f s) = phase s /\ levelIndex (f s) = levelIndex s /\
             timeLeft (f s) = timeLeft s /\ tickTimer (f s) = tickTimer s /\
             spawnTimer (f s) = spawnTimer s /\ graceTimers (f s) = graceTimers s /\
             now (f s) = now s /\ hearts (f s) = hearts s) ->
  Inv st -> Inv (f (setHearts (without i (hearts st)) st)).
Proof.
  intros Hf I.
  destruct (Hf (setHearts (without i (hearts st)) st))
    as (Hph & Hli & Htl & Htk & Hsp & Hgr & Hnow & Hhs).
  cbn in *. constructor.
  - rewrite Hli. apply I.
  - rewrite Hph, Htk, Hsp. apply I.
  - rewrite Htk, Hli, Hnow, Htl. apply I.
  - rewrite Hsp, Hli. apply I.
  - rewrite Hgr, Hnow. apply I.
  - rewrite Hhs, Hnow, Hsp. intros h Hin. apply without_In in Hin. apply I, Hin.
Qed.

Lemma fallFinished_Inv (st : State) (i : HeartId) : Inv st -> Inv (fallFinished i st).
Proof.
  intros I. unfold fallFinished. apply (without_Inv st i forceRender); [|exact I].
  intros s. cbn. repeat split; reflexivity.
Qed.

Lemma onTapHeart_Inv (st : State) (i : HeartId) : Inv st -> Inv (onTapHeart i st).
Proof.
  intros I. unfold onTapHeart. destruct (find (has_id i) (hearts st)); [|exact I].
  apply (without_Inv st i (fun s => forceRender (setScore (score s + 1) s))); [|exact I].
  intros s. cbn. repeat split; reflexivity.
Qed.

Ltac some_inv :=
  let E := fresh "E" in intros E; apply Some_inj in E; subst.

Lemma step_Inv (st st' : State) (e : Event) :
  Inv st -> step st e = Some st' -> Inv st'.
Proof.
  intros I. destruct e; cbn [step].
  - (* Elapse *)
    destruct (0 <=? dt) eqn:Hdt; [|discriminate]. some_inv.
    apply Z.leb_le in Hdt. constructor; cbn; try apply I.
    + intros tk Htk. destruct (inv_tick st I tk Htk) as (Hidx & lv & Hlv & Hle).
      split; [exact Hidx|]. exists lv. split; [exact Hlv|].
      pose proof (ceil_div_mono (durationMs lv - (now st + dt - tk_startAt tk))
                    (durationMs lv - (now st - tk_startAt tk)) ltac:(lia)).
      lia.
    + intros d Hd. pose proof (inv_grace st I d Hd). lia.
    + intros h Hin. destruct (inv_ids st I h Hin) as [Hnow Hlt].
      split; [lia | exact Hlt].
  - (* TickFire *)
    destruct (tickTimer st) as [tk|] eqn:Htk; [|discriminate].
    destruct (fires (tk_due tk) st); [|discriminate]. some_inv.
    apply (tick_Inv st _ tk I Htk). reflexivity.
  - (* SpawnFire *)
    destruct (spawnTimer st) as [sp|] eqn:Hsp; [|discriminate].
    destruct (fires (sp_due sp) st) eqn:Hf; [|discriminate].
    destruct (rolls_ok r); [|discriminate]. cbn [andb]. some_inv.
    apply fires_due in Hf.
    apply (spawn_Inv st _ sp r I Hsp); [exact (proj1 Hf) | reflexivity].
  - (* GraceFire *)
    destruct (graceTimers st) as [|d rest] eqn:Hg; [discriminate|].
    destruct (fires d st); [|discriminate]. some_inv.
    constructor; cbn; try apply I; try contradiction.
    intros d' Hd'. apply I. rewrite Hg. right. exact Hd'.
  - (* FallDone *)
    destruct (find (has_id i) (hearts st)) as [h|]; [|discriminate].
    destruct (_ <=? _); [|discriminate]. some_inv.
    apply fallFinished_Inv, I.
  - (* Tap *)
    some_inv. apply onTapHeart_Inv, I.
  - (* PressStart *)
    destruct (phase st); try discriminate. some_inv.
    eapply startLevel_Inv; [exact I | | reflexivity]. cbn. lia.
  - (* PressNext *)
    destruct (offered NextLevel st) eqn:Ho; [|discriminate]. some_inv.
    apply offered_reward in Ho. destruct Ho as (_ & lv & _ & Hb).
    apply rewardButton_next in Hb.
    eapply startLevel_Inv; [exact I | | reflexivity]. lia.
  - (* PressOpen *)
    destruct (offered OpenSurprise st) eqn:Ho; [|discriminate]. some_inv.
    apply offered_reward in Ho. destruct Ho as (Hph & _).
    destruct (inv_idle st I) as [Htk Hsp]; [congruence|].
    constructor; cbn; try apply I. auto.
  - (* PressRetry *)
    destruct (offered Retry st); [|discriminate]. some_inv.
    eapply startLevel_Inv; [exact I | | reflexivity]. apply I.
  - (* PressBack *)
    destruct (phase st); try discriminate.
    destruct (current st); [|discriminate]. some_inv.
    apply backToIntro_Inv, I.
  - (* PressQuit *)
    destruct (phase st); try discriminate. some_inv.
    apply backToIntro_Inv, I.
  - (* PressFinish *)
    destruct (phase st); try discriminate. some_inv.
    eapply endLevel_Inv; [..|reflexivity]; apply I.
  - (* PressYes *)
    destruct (phase st); try discriminate. some_inv. exact I.
Qed.

Lemma reachable_Inv (st : State) : reachable st -> Inv st.
Proof.
  induction 1 as [t0 | st e st' _ IH Hstep].
  - apply initial_Inv.
  - eapply step_Inv; eauto.
Qed.

Lemma run_reachable (st st' : State) (es : list Event) :
  reachable st -> run st es = Some st' -> reachable st'.
Proof.
  revert st. induction es as [|e es IH]; cbn; intros st Hr.
  - intros [= <-]. exact Hr.
  - destruct (step st e) as [s|] eqn:Hs; [|discriminate].
    apply IH. eapply reach_step; eauto.
Qed.

(** ** Grace timeouts that outlive their level *)

Lemma firstn_subset {A : Type} (n : nat) (l : list A) (a : A) :
  In a (firstn n l) -> In a l.
Proof.
  revert l. induction n as [|n IH]; intros [|b l]; cbn; try contradiction.
  intros [E|Hin]; [left; exact E | right; apply IH, Hin].
Qed.

Lemma quiet_zero (st : State) : quiet 0 st.
Proof. split; [apply Nat.le_0_l | intros Hk; inversion Hk]. Qed.

Lemma quiet_start (st st' : State) (idx : nat) (k : nat) :
  Inv st -> (k <= List.length (graceTimers st))%nat ->
  startLevel idx st = Returned st' -> quiet k st'.
Proof.
  intros I Hk Hs.
  destruct (nth_error LEVELS idx) as [lv|] eqn:Hlv.
  - destruct (startLevel_ok st idx lv Hlv)
      as (s & Hs' & _ & _ & _ & _ & Hhs & _ & Hsp & Hgr & _).
    rewrite Hs in Hs'. injection Hs' as <-.
    destruct (LEVELS_facts idx lv Hlv) as (_ & Hev & _).
    split; [rewrite Hgr; exact Hk|]. intros _. split; [exact Hhs|].
    intros sp. rewrite Hsp, Hgr. intros E d Hd. apply Some_inj in E. subst sp. cbn.
    apply firstn_subset in Hd. pose proof (inv_grace st I d Hd). lia.
  - unfold startLevel in Hs. rewrite Hlv in Hs. discriminate.
Qed.

Lemma quiet_end (st st' : State) (seen : Z) (idx : nat) (k : nat) :
  quiet k st -> settle (endLevel seen idx st) = st' -> quiet k st'.
Proof.
  intros [Hk Hq] <-. unfold endLevel.
  destruct (nth_error LEVELS idx) as [lv|]; cbn [settle].
  - assert (quiet k (setGraceTimers (graceTimers st ++ [now st + 250]) (clearTimers st))) as Q.
    { split; cbn.
      - rewrite length_app. lia.
      - intros Hpos. split; [apply Hq, Hpos | discriminate]. }
    destruct (negb (target lv <=? seen)); [exact Q|].
    destruct (Z.of_nat idx <? Z.of_nat (List.length LEVELS) - 1); exact Q.
  - split; cbn; [exact Hk|]. intros Hpos. split; [apply Hq, Hpos | discriminate].
Qed.

Lemma quiet_step (st st' : State) (e : Event) (k : nat) :
  Inv st -> quiet k st -> step st e = Some st' ->
  quiet (k - (if isGraceFire e then 1 else 0)) st'.
Proof.
  intros I Q.
  destruct e; cbn [isGraceFire]; rewrite ?Nat.sub_0_r; cbn [step].
  - (* Elapse *)
    destruct (0 <=? dt); [|discriminate]. some_inv. exact Q.
  - (* TickFire *)
    destruct (tickTimer st) as [tk|] eqn:Htk; [|discriminate].
    destruct (fires (tk_due tk) st); [|discriminate]. some_inv.
    unfold tick. destruct (nth_error LEVELS (tk_idx tk)) as [lv|]; [|exact Q].
    cbn [now setTickTimer]. destruct (_ <=? 0); [|exact Q].
    eapply quiet_end; [|reflexivity]. exact Q.
  - (* SpawnFire *)
    destruct (spawnTimer st) as [sp|] eqn:Hsp; [|discriminate].
    destruct (fires (sp_due sp) st) eqn:Hf; [|discriminate].
    destruct (rolls_ok r); [|discriminate]. cbn [andb]. intros _.
    destruct k as [|k]; [apply quiet_zero|]. exfalso.
    destruct Q as [Hk Hq]. destruct (Hq ltac:(lia)) as [_ Hlt].
    destruct (graceTimers st) as [|d rest] eqn:Hg; [cbn in Hk; lia|].
    specialize (Hlt sp Hsp d (or_introl eq_refl)).
    apply fires_due in Hf. destruct Hf as [_ Hmin].
    assert (sp_due sp <= d); [|lia].
    apply Hmin. unfold pending. rewrite Hg.
    apply in_or_app. right. apply in_or_app. right. left. reflexivity.
  - (* GraceFire *)
    destruct (graceTimers st) as [|d rest] eqn:Hg; [discriminate|].
    destruct (fires d st); [|discriminate]. some_inv.
    destruct Q as [Hk Hq]. rewrite Hg in Hk, Hq. cbn in Hk. split; cbn.
    + lia.
    + intros Hpos. split; [reflexivity|]. intros sp Hsp d' Hd'.
      destruct k as [|k]; [lia|]. destruct (Hq ltac:(lia)) as [_ Hlt].
      apply (Hlt sp Hsp). right. cbn in Hd'. rewrite Nat.sub_0_r in Hd'. exact Hd'.
  - (* FallDone *)
    destruct (find (has_id i) (hearts st)) as [h|] eqn:Hfind; [|discriminate].
    intros _. destruct k as [|k]; [apply quiet_zero|]. exfalso.
    destruct Q as [_ Hq]. destruct (Hq ltac:(lia)) as [Hhs _].
    rewrite Hhs in Hfind. discriminate.
  - (* Tap *)
    some_inv. destruct k as [|k]; [apply quiet_zero|].
    destruct Q as [Hk Hq]. destruct (Hq ltac:(lia)) as [Hhs Hlt].
    unfold onTapHeart. rewrite Hhs. cbn. split; auto.
  - (* PressStart *)
    destruct (phase st); try discriminate. some_inv.
    destruct (startLevel 0 st) as [s|s] eqn:Hs; [|discriminate Hs].
    eapply quiet_start; eauto. apply Q.
  - (* PressNext *)
    destruct (offered NextLevel st) eqn:Ho; [|discriminate]. some_inv.
    apply offered_reward in Ho. destruct Ho as (_ & lv & _ & Hb).
    apply rewardButton_next in Hb.
    destruct (LEVELS_some (levelIndex st + 1) ltac:(lia)) as [lv' Hlv'].
    destruct (startLevel_ok st _ lv' Hlv') as (s & Hs & _).
    rewrite Hs. eapply quiet_start; eauto. apply Q.
  - (* PressOpen *)
    destruct (offered OpenSurprise st); [|discriminate]. some_inv. exact Q.
  - (* PressRetry *)
    destruct (offered Retry st); [|discriminate]. some_inv.
    destruct (LEVELS_some (levelIndex st) (inv_index st I)) as [lv' Hlv'].
    destruct (startLevel_ok st _ lv' Hlv') as (s & Hs & _).
    rewrite Hs. eapply quiet_start; eauto. apply Q.
  - (* PressBack *)
    destruct (phase st); try discriminate.
    destruct (current st); [|discriminate]. some_inv.
    destruct Q as [Hk Hq]. split; cbn; [exact Hk|].
    intros _. split; [reflexivity | discriminate].
  - (* PressQuit *)
    destruct (phase st); try discriminate. some_inv.
    destruct Q as [Hk Hq]. split; cbn; [exact Hk|].
    intros _. split; [reflexivity | discriminate].
  - (* PressFinish *)
    destruct (phase st); try discriminate. some_inv.
    eapply quiet_end; [|reflexivity]. exact Q.
  - (* PressYes *)
    destruct (phase st); try discriminate. some_inv. exact Q.
Qed.

Lemma quiet_run (st st' : State) (es : list Event) (k : nat) :
  Inv st -> quiet k st -> run st es = Some st' ->
  quiet (k - List.length (filter isGraceFire es)) st'.
Proof.
  revert st k. induction es as [|e es IH]; cbn [run filter]; intros st k I Q.
  - some_inv. cbn. rewrite Nat.sub_0_r. exact Q.
  - destruct (step st e) as [s|] eqn:Hs; [|discriminate]. intros Hrun.
    pose proof (step_Inv st s e I Hs) as I'.
    pose proof (quiet_step st s e k I Q Hs) as Q'.
    specialize (IH s _ I' Q' Hrun).
    destruct (isGraceFire e); cbn [List.length].
    + replace (k - S (List.length (filter isGraceFire es)))%nat
        with (k - 1 - List.length (filter isGraceFire es))%nat by lia.
      exact IH.
    + rewrite Nat.sub_0_r in IH. exact IH.
Qed.

Lemma quiet_grace_fire (st st' : State) (k : nat) :
  quiet k st -> (0 < k)%nat -> step st GraceFire = Some st' ->
  session st' = session st.
Proof.
  intros [_ Hq] Hpos. destruct (Hq Hpos) as [Hhs _]. cbn [step].
  destruct (graceTimers st) as [|d rest]; [discriminate|].
  destruct (fires d st); [|discriminate]. some_inv.
  unfold session. cbn. rewrite Hhs. reflexivity.
Qed.

(** ** A heart that was tapped or missed is gone for good *)

Lemma endLevel_frame (st : State) (seen : Z) (idx : nat) :
  let st' := settle (endLevel seen idx st) in
  score st' = score st /\ timeLeft st' = timeLeft st /\
  hearts st' = hearts st /\ levelIndex st' = levelIndex st /\
  now st' = now st /\ tickTimer st' = None /\ spawnTimer st' = None.
Proof.
  unfold endLevel. destruct (nth_error LEVELS idx) as [lv|]; cbn [settle].
  - destruct (negb (target lv <=? seen));
      [|destruct (Z.of_nat idx <? Z.of_nat (List.length LEVELS) - 1)];
      cbn; repeat split; reflexivity.
  - cbn. repeat split; reflexivity.
Qed.










(** ** While a level is running *)

Lemma playing_step_mono (st st' : State) (e : Event) :
  Inv st -> phase st = playing -> step st e = Some st' ->
  timeLeft st' <= timeLeft st /\ score st <= score st'.
Proof.
  intros I Hph. destruct e; cbn [step].
  - destruct (0 <=? dt); [|discriminate]. some_inv. cbn. lia.
  - destruct (tickTimer st) as [tk|] eqn:Htk; [|discriminate].
    destruct (fires (tk_due tk) st); [|discriminate]. some_inv.
    destruct (inv_tick st I tk Htk) as (_ & lv & Hlv & Hle).
    unfold tick. rewrite Hlv. cbn [now setTickTimer].
    set (left := Z.max 0 (ceil_div (durationMs lv - (now st - tk_startAt tk)) 1000)) in *.
    destruct (left <=? 0).
    + match goal with |- context [endLevel ?a ?b ?c] =>
        destruct (endLevel_frame c a b) as (Hs & Ht & _) end.
      cbn zeta in Hs, Ht. rewrite Hs, Ht. cbn. lia.
    + cbn. lia.
  - destruct (spawnTimer st) as [sp|]; [|discriminate].
    destruct (_ && _); [|discriminate]. some_inv.
    unfold spawnHeart. destruct (nth_error LEVELS (sp_idx sp)); cbn; lia.
  - destruct (graceTimers st) as [|d rest]; [discriminate|].
    destruct (fires d st); [|discriminate]. some_inv. cbn. lia.
  - destruct (find (has_id i) (hearts st)); [|discriminate].
    destruct (_ <=? _); [|discriminate]. some_inv. cbn. lia.
  - some_inv. unfold onTapHeart.
    destruct (find (has_id i) (hearts st)); cbn; lia.
  - rewrite Hph. discriminate.
  - unfold offered. rewrite Hph. discriminate.
  - unfold offered. rewrite Hph. discriminate.
  - unfold offered. rewrite Hph. discriminate.
  - rewrite Hph. discriminate.
  - rewrite Hph. some_inv. cbn. lia.
  - rewrite Hph. some_inv.
    destruct (endLevel_frame st (score st) (levelIndex st)) as (Hs & Ht & _).
    cbn zeta in Hs, Ht. rewrite Hs, Ht. lia.
  - rewrite Hph. discriminate.
Qed.

(** ** Properties of the session engine *)

(** C2 (as amended): [startLevel] does not check its index.  For an index
    outside [0 <= idx < LEVELS.length] it raises only after the timers and
    the live hearts were cleared, so the session is not preserved; but every
    call the screens make (Start with 0, Next Level with [levelIndex + 1],
    offered only below the last level, Retry with [levelIndex]) is in range
    and returns normally. *)
Theorem start_is_called_in_range (st : State) :
  reachable st ->
  (forall idx s, (List.length LEVELS <= idx)%nat ->
     exists s', startLevel idx s = Threw s' /\
                hearts s' = [] /\ tickTimer s' = None /\ spawnTimer s' = None) /\
  (levelIndex st < List.length LEVELS)%nat /\
  (forall st', step st PressStart = Some st' -> startLevel 0 st = Returned st') /\
  (forall st', step st PressNext = Some st' ->
     (levelIndex st + 1 < List.length LEVELS)%nat /\
     startLevel (levelIndex st + 1) st = Returned st') /\
  (forall st', step st PressRetry = Some st' ->
     startLevel (levelIndex st) st = Returned st').
Proof.
  intros Hr. apply reachable_Inv in Hr. repeat split.
  - intros idx s Hge. rewrite (startLevel_throws s idx Hge).
    eexists. split; [reflexivity|]. cbn. repeat split; reflexivity.
  - apply Hr.
  - intros st'. cbn [step]. destruct (phase st); try discriminate. some_inv.
    destruct (LEVELS_some 0 ltac:(cbn; lia)) as [lv Hlv].
    destruct (startLevel_ok st 0 lv Hlv) as (s & -> & _). reflexivity.
  - cbn [step] in H0. destruct (offered NextLevel st) eqn:Ho; [|discriminate].
    apply offered_reward in Ho. destruct Ho as (_ & lv & _ & Hb).
    apply rewardButton_next in Hb. apply Hb.
  - revert H0. cbn [step]. destruct (offered NextLevel st) eqn:Ho; [|discriminate].
    some_inv. apply offered_reward in Ho. destruct Ho as (_ & lv & _ & Hb).
    apply rewardButton_next in Hb.
    destruct (LEVELS_some (levelIndex st + 1) ltac:(lia)) as [lv' Hlv'].
    destruct (startLevel_ok st _ lv' Hlv') as (s & -> & _). reflexivity.
  - intros st'. cbn [step]. destruct (offered Retry st); [|discriminate]. some_inv.
    destruct (LEVELS_some (levelIndex st) (inv_index st Hr)) as [lv Hlv].
    destruct (startLevel_ok st _ lv Hlv) as (s & -> & _). reflexivity.
Qed.

(** C3: ending a level ([endLevel], on expiry or Finish) and quitting stop
    the countdown and the spawner at once; [startLevel] returns with no heart
    of the previous level left and with timers of its own; an armed timer
    always belongs to the level being played; and a grace timeout that was
    pending when a level was started changes nothing of the session when it
    fires later. *)
Theorem no_timer_outlives_its_level (st : State) :
  reachable st ->
  (forall seen idx,
     tickTimer (settle (endLevel seen idx st)) = None /\
     spawnTimer (settle (endLevel seen idx st)) = None) /\
  (tickTimer (backToIntro st) = None /\ spawnTimer (backToIntro st) = None /\
   hearts (backToIntro st) = []) /\
  (forall idx st', startLevel idx st = Returned st' ->
     hearts st' = [] /\
     exists lv, nth_error LEVELS idx = Some lv /\
       tickTimer st' = Some {| tk_idx := idx; tk_startAt := now st;
                               tk_score := score st; tk_due := now st + 250 |} /\
       spawnTimer st' = Some {| sp_idx := idx; sp_every := spawnEveryMs lv;
                                sp_due := now st + spawnEveryMs lv |}) /\
  (forall tk, tickTimer st = Some tk ->
     phase st = playing /\ tk_idx tk = levelIndex st) /\
  (forall sp, spawnTimer st = Some sp ->
     phase st = playing /\ sp_idx sp = levelIndex st) /\
  (forall idx st1 es s s',
     startLevel idx st = Returned st1 ->
     run st1 es = Some s ->
     (List.length (filter isGraceFire es) < List.length (graceTimers st))%nat ->
     step s GraceFire = Some s' ->
     session s' = session s).
Proof.
  intros Hr. apply reachable_Inv in Hr.
  assert (forall idx st', startLevel idx st = Returned st' ->
            exists lv, nth_error LEVELS idx = Some lv) as Hret.
  { intros idx st' Hs. destruct (nth_error LEVELS idx) as [lv|] eqn:Hlv; [eauto|].
    unfold startLevel in Hs. rewrite Hlv in Hs. discriminate. }
  split; [|split; [|split; [|split; [|split]]]].
  - intros seen idx. apply endLevel_frame.
  - cbn. repeat split; reflexivity.
  - intros idx st' Hs. destruct (Hret idx st' Hs) as [lv Hlv].
    destruct (startLevel_ok st idx lv Hlv)
      as (s & Hs' & _ & _ & _ & _ & Hhs & Htk & Hsp & _).
    rewrite Hs in Hs'. injection Hs' as <-. split; [exact Hhs|].
    exists lv. repeat split; assumption.
  - intros tk Htk. split; [|apply (inv_tick st Hr tk Htk)].
    destruct (phase st) eqn:Hph; try reflexivity;
      destruct (inv_idle st Hr) as [Hnone _]; congruence.
  - intros sp Hsp. split; [|apply (inv_spawn st Hr sp Hsp)].
    destruct (phase st) eqn:Hph; try reflexivity;
      destruct (inv_idle st Hr) as [_ Hnone]; congruence.
  - intros idx st1 es s s' Hs Hrun Hlt Hfire.
    destruct (Hret idx st1 Hs) as [lv Hlv].
    assert (Inv st1) as I1.
    { apply (startLevel_Inv st st1 idx Hr).
      - apply (LEVELS_facts idx lv Hlv).
      - rewrite Hs. reflexivity. }
    pose proof (quiet_start st st1 idx _ Hr (Nat.le_refl _) Hs) as Q.
    pose proof (quiet_run st1 s es _ I1 Q Hrun) as Q'.
    eapply quiet_grace_fire; [exact Q' | lia | exact Hfire].
Qed.


(** C5: for every valid level index and whatever the state before,
    [startLevel] returns with the score at 0, the remaining time at the
    level's full duration (in seconds), no live hearts, and the phase
    playing. *)
Theorem start_resets_level (st : State) (idx : nat) (lv : Level) :
  nth_error LEVELS idx = Some lv ->
  exists st',
    startLevel idx st = Returned st' /\
    score st' = 0 /\
    timeLeft st' = ceil_div (durationMs lv) 1000 /\
    1000 * timeLeft st' = durationMs lv /\
    hearts st' = [] /\
    phase st' = playing /\
    levelIndex st' = idx.
Proof.
  intros Hlv.
  destruct (startLevel_ok st idx lv Hlv)
    as (s & Hs & Hph & Hli & Hsc & Htl & Hhs & _).
  destruct (LEVELS_facts idx lv Hlv) as (_ & _ & _ & Hsec).
  exists s. rewrite Htl. repeat split; assumption.
Qed.

(** C6 (as amended): while the countdown is armed, each tick recomputes the
    remaining time as [max(0, ceil((durationMs - elapsed) / 1000))] whole
    seconds, that is the remaining milliseconds [max(0, durationMs - elapsed)]
    rounded up to seconds; it is 0 exactly when no millisecond remains, and
    then the countdown and the spawner are stopped and the phase is a
    resolved one (reward or proposal); otherwise the level goes on. *)
Theorem tick_counts_whole_seconds (st st' : State) (tk : TickTimer) (lv : Level) :
  tickTimer st = Some tk ->
  nth_error LEVELS (tk_idx tk) = Some lv ->
  step st TickFire = Some st' ->
  timeLeft st' = Z.max 0 (ceil_div (durationMs lv - (now st - tk_startAt tk)) 1000) /\
  timeLeft st' = ceil_div (remaining lv (tk_startAt tk) (now st)) 1000 /\
  (timeLeft st' = 0 <-> remaining lv (tk_startAt tk) (now st) = 0) /\
  (remaining lv (tk_startAt tk) (now st) = 0 ->
     tickTimer st' = None /\ spawnTimer st' = None /\
     (phase st' = reward \/ phase st' = proposal)) /\
  (0 < remaining lv (tk_startAt tk) (now st) ->
     phase st' = phase st /\ spawnTimer st' = spawnTimer st /\
     tickTimer st' = Some {| tk_idx := tk_idx tk; tk_startAt := tk_startAt tk;
                             tk_score := tk_score tk; tk_due := now st + 250 |}).
Proof.
  intros Htk Hlv. cbn [step]. rewrite Htk.
  destruct (fires (tk_due tk) st); [|discriminate]. some_inv.
  unfold tick. rewrite Hlv. cbn [now setTickTimer]. unfold remaining.
  set (n := durationMs lv - (now st - tk_startAt tk)).
  pose proof (ceil_div_max n) as Hmax.
  pose proof (ceil_div_zero_iff (Z.max 0 n) ltac:(lia)) as Hz.
  destruct (Z.max 0 (ceil_div n 1000) <=? 0) eqn:Hle.
  - apply Z.leb_le in Hle.
    match goal with |- context [endLevel ?a ?b ?c] =>
      destruct (endLevel_ok c a b lv Hlv)
        as (s & -> & Hph & Htk' & Hsp' & _ & _ & _ & Htl & _) end.
    cbn [settle]. rewrite Htl, Htk', Hsp', Hph. cbn [timeLeft setTimeLeft].
    split; [reflexivity|]. split; [exact Hmax|]. split; [rewrite Hmax; exact Hz|].
    split.
    + intros _. repeat split. apply resolvedPhase_resolved.
    + intros Hpos. exfalso. rewrite Hmax in Hle. lia.
  - apply Z.leb_gt in Hle. cbn.
    split; [reflexivity|]. split; [exact Hmax|]. split; [rewrite Hmax; exact Hz|].
    split.
    + intros Hrem. exfalso. rewrite Hmax in Hle. lia.
    + intros _. repeat split; reflexivity.
Qed.

(** C7: a tap on a heart that is in the list removes it (and only it) and
    adds exactly 1 to the score; a tap on an id that is not in the list
    returns the state as it was, with no error; so a second tap on the same
    id changes nothing. *)
Theorem tap_scores_exactly_once (st : State) (i : HeartId) :
  step st (Tap i) = Some (onTapHeart i st) /\
  (existsb (has_id i) (hearts st) = true ->
     score (onTapHeart i st) = score st + 1 /\
     existsb (has_id i) (hearts (onTapHeart i st)) = false /\
     (forall h, In h (hearts (onTapHeart i st)) <-> In h (hearts st) /\ id h <> i) /\
     phase (onTapHeart i st) = phase st /\
     timeLeft (onTapHeart i st) = timeLeft st /\
     levelIndex (onTapHeart i st) = levelIndex st) /\
  (existsb (has_id i) (hearts st) = false -> onTapHeart i st = st) /\
  onTapHeart i (onTapHeart i st) = onTapHeart i st.
Proof.
  assert (forall s, find (has_id i) (hearts s) = None ->
                    existsb (has_id i) (hearts s) = false) as Hnone.
  { intros s Hf. destruct (existsb (has_id i) (hearts s)) eqn:E; [|reflexivity].
    apply find_existsb in E. destruct E as [h Hh]. congruence. }
  split; [reflexivity|]. split; [|split].
  - intros Hex. apply find_existsb in Hex. destruct Hex as [h Hh].
    unfold onTapHeart. rewrite Hh. cbn.
    split; [reflexivity|]. split; [|split].
    + apply (Hnone (setHearts (without i (hearts st)) st)). apply find_without.
    + intros h'. apply without_In.
    + repeat split; reflexivity.
  - intros Hex. unfold onTapHeart.
    destruct (find (has_id i) (hearts st)) as [h|] eqn:Hf; [|reflexivity].
    assert (existsb (has_id i) (hearts st) = true) as Hex'
      by (apply find_existsb; eauto).
    congruence.
  - assert (find (has_id i) (hearts (onTapHeart i st)) = None) as Hgone.
    { unfold onTapHeart.
      destruct (find (has_id i) (hearts st)) eqn:Hf; [cbn; apply find_without | exact Hf]. }
    unfold onTapHeart at 1. rewrite Hgone. reflexivity.
Qed.

(** What [endLevel] and the reward screen do with an attempt that reached
    the target, by the score [seen] that [endLevel] reads: on the last level
    [endLevel] enters the proposal phase only when [seen] reaches the
    target, and otherwise leaves for the reward screen, where Open Surprise
    is offered; before the last level it leaves for the reward screen, where
    Next Level is offered. *)
Lemma final_pass_is_told_apart (st : State) (seen : Z) (idx : nat) (lv : Level) :
  nth_error LEVELS idx = Some lv ->
  levelIndex st = idx ->
  target lv <= score st ->
  exists st',
    endLevel seen idx st = Returned st' /\
    (Z.of_nat idx = Z.of_nat (List.length LEVELS) - 1 ->
       offered NextLevel st' = false /\
       (target lv <= seen -> phase st' = proposal) /\
       (seen < target lv ->
          phase st' = reward /\ offered OpenSurprise st' = true /\
          step st' PressOpen = Some (setPhase proposal st') /\
          phase (setPhase proposal st') = proposal)) /\
    (Z.of_nat idx <> Z.of_nat (List.length LEVELS) - 1 ->
       phase st' = reward /\ offered NextLevel st' = true /\
       offered OpenSurprise st' = false).
Proof.
  intros Hlv Hli Hpass.
  destruct (endLevel_ok st seen idx lv Hlv)
    as (s & Hs & Hph & _ & _ & _ & _ & Hsc & _ & Hli' & _).
  exists s. split; [exact Hs|].
  assert (current s = Some lv) as Hcur.
  { unfold current. rewrite Hli', Hli. exact Hlv. }
  assert (success lv s = true) as Hsuc.
  { unfold success. rewrite Hsc. apply Z.leb_le, Hpass. }
  destruct (LEVELS_facts idx lv Hlv) as (Hidx & _).
  unfold resolvedPhase in Hph.
  split.
  - intros Hfin.
    assert (rewardButton lv s = OpenSurprise) as Hb.
    { unfold rewardButton. rewrite Hsuc, Hli', Hli. cbn [andb].
      destruct (Z.of_nat idx <? Z.of_nat (List.length LEVELS) - 1) eqn:E1;
        [apply Z.ltb_lt in E1; lia|].
      destruct (Z.of_nat idx >=? Z.of_nat (List.length LEVELS) - 1) eqn:E2;
        [reflexivity|]. rewrite Z.geb_leb in E2. apply Z.leb_gt in E2. lia. }
    assert ((Z.of_nat idx <? Z.of_nat (List.length LEVELS) - 1) = false) as E
      by (apply Z.ltb_ge; lia).
    rewrite E in Hph. cbn [negb] in Hph. rewrite andb_true_r in Hph.
    split; [|split].
    + unfold offered. rewrite Hcur, Hb. destruct (phase s); reflexivity.
    + intros Hseen. apply Z.leb_le in Hseen. rewrite Hseen in Hph. exact Hph.
    + intros Hseen. apply Z.leb_gt in Hseen. rewrite Hseen in Hph.
      assert (offered OpenSurprise s = true) as Ho
        by (unfold offered; rewrite Hph, Hcur, Hb; reflexivity).
      repeat split; [exact Hph | exact Ho |]. cbn [step]. rewrite Ho. reflexivity.
  - intros Hnot.
    assert ((Z.of_nat idx <? Z.of_nat (List.length LEVELS) - 1) = true) as E
      by (apply Z.ltb_lt; lia).
    rewrite E in Hph. cbn [negb] in Hph. rewrite andb_false_r in Hph.
    assert (rewardButton lv s = NextLevel) as Hb.
    { unfold rewardButton. rewrite Hsuc, Hli', Hli, E. reflexivity. }
    unfold offered. rewrite Hph, Hcur, Hb. repeat split; reflexivity.
Qed.

(** C9: over every sequence of events delivered while the phase is playing,
    the remaining time never increases and the score never decreases. *)
Theorem running_level_is_monotone (st st' : State) (es : list Event) :
  reachable st -> playing_run st es st' ->
  timeLeft st' <= timeLeft st /\ score st <= score st'.
Proof.
  intros Hr Hrun. apply reachable_Inv in Hr.
  induction Hrun as [st | st e s es s' Hph Hs Hrun IH].
  - lia.
  - pose proof (playing_step_mono st s e Hr Hph Hs).
    pose proof (IH (step_Inv st s e Hr Hs)). lia.
Qed.

(** C10: Quit, pressed while a level is being played, stops the countdown
    and the spawner, removes every live heart and shows the intro screen; the
    score, the level index and the remaining time stay as they were, and
    after it only the next start sets the score (to 0). *)
Theorem quit_keeps_the_score (st st' : State) :
  step st PressQuit = Some st' ->
  phase st = playing /\ phase st' = intro /\
  tickTimer st' = None /\ spawnTimer st' = None /\ hearts st' = [] /\
  score st' = score st /\ levelIndex st' = levelIndex st /\
  timeLeft st' = timeLeft st /\
  forall e st'', step st' e = Some st'' ->
    (e = PressStart /\ score st'' = 0) \/ (e <> PressStart /\ score st'' = score st).
Proof.
  cbn [step]. destruct (phase st) eqn:Hph; try discriminate. some_inv.
  repeat split; try reflexivity.
  intros e st''. destruct e; cbn; intros Hs; try discriminate Hs.
  - destruct (0 <=? dt); [|discriminate]. apply Some_inj in Hs. subst st''.
    right. split; [discriminate | reflexivity].
  - destruct (graceTimers st); [discriminate|].
    destruct (fires _ _); [|discriminate]. apply Some_inj in Hs. subst st''.
    right. split; [discriminate | reflexivity].
  - apply Some_inj in Hs. subst st''. right. split; [discriminate | reflexivity].
  - apply Some_inj in Hs. subst st''. left. split; reflexivity.
Qed.

(** X1: when the countdown runs out, the phase is decided by comparing the
    target with the score that the countdown's closure holds, the one that
    was on screen when [startLevel] was called, whatever the score of the
    attempt is; the score itself is left as it is. *)
Theorem expiry_compares_the_score_seen_at_start
    (st st' : State) (tk : TickTimer) (lv : Level) :
  tickTimer st = Some tk -> nth_error LEVELS (tk_idx tk) = Some lv ->
  remaining lv (tk_startAt tk) (now st) = 0 ->
  step st TickFire = Some st' ->
  phase st' = resolvedPhase lv (tk_score tk) (tk_idx tk) /\ score st' = score st.
Proof.
  intros Htk Hlv Hrem. cbn [step]. rewrite Htk.
  destruct (fires (tk_due tk) st); [|discriminate]. some_inv.
  unfold tick. rewrite Hlv. cbn [now setTickTimer].
  unfold remaining in Hrem.
  pose proof (ceil_div_spec (durationMs lv - (now st - tk_startAt tk))) as Hc.
  destruct (_ <=? 0) eqn:Hle; [|apply Z.leb_gt in Hle; lia].
  match goal with |- context [endLevel ?a ?b ?c] =>
    destruct (endLevel_ok c a b lv Hlv) as (s & -> & Hph & _ & _ & _ & _ & Hsc & _) end.
  cbn [settle]. rewrite Hph, Hsc. split; reflexivity.
Qed.

(** ** Bounds of the reachable states *)

Lemma sorted_snoc (l : list Z) (a : Z) :
  StronglySorted Z.lt l -> (forall b, In b l -> b < a) ->
  StronglySorted Z.lt (l ++ [a]).
Proof.
  induction 1 as [|b l Hs IH Hall]; cbn; intros Hlt.
  - repeat constructor.
  - constructor.
    + apply IH. intros c Hc. apply Hlt. right. exact Hc.
    + apply Forall_app. split; [exact Hall|].
      constructor; [|constructor]. apply Hlt. left. reflexivity.
Qed.

Lemma sorted_without (i : HeartId) (hs : list Heart) :
  StronglySorted Z.lt (map born hs) ->
  StronglySorted Z.lt (map born (without i hs)).
Proof.
  unfold without. induction hs as [|h hs IH]; cbn; intros Hs; [constructor|].
  apply StronglySorted_inv in Hs. destruct Hs as [Hs Hall].
  destruct (negb (has_id i h)); cbn; [|apply IH, Hs].
  constructor; [apply IH, Hs|].
  rewrite Forall_forall in *. intros b Hb. apply Hall.
  apply in_map_iff in Hb. destruct Hb as (h' & <- & Hin).
  apply filter_In in Hin. apply in_map, Hin.
Qed.

Lemma sorted_absent (i : HeartId) (hs : list Heart) :
  Forall (Z.lt (id_ms i)) (map born hs) -> without i hs = hs.
Proof.
  intros Hall. apply without_absent.
  destruct (find (has_id i) hs) as [h|] eqn:Hf; [|reflexivity].
  apply find_has_id in Hf. destruct Hf as [Hin Hid].
  rewrite Forall_forall in Hall.
  specialize (Hall (born h) (in_map born hs h Hin)).
  unfold born in Hall. rewrite Hid in Hall. lia.
Qed.

Lemma without_one (i : HeartId) (hs : list Heart) (h : Heart) :
  StronglySorted Z.lt (map born hs) -> find (has_id i) hs = Some h ->
  S (List.length (without i hs)) = List.length hs.
Proof.
  induction hs as [|h0 hs IH]; cbn; intros Hs Hf; [discriminate|].
  apply StronglySorted_inv in Hs. destruct Hs as [Hs Hall].
  destruct (has_id i h0) eqn:E; cbn.
  - apply id_eqb_eq in E. fold (without i hs).
    rewrite sorted_absent; [reflexivity|].
    unfold born in Hall at 1. rewrite E in Hall. exact Hall.
  - f_equal. apply IH; assumption.
Qed.

Lemma without_shorter (i : HeartId) (hs : list Heart) :
  (List.length (without i hs) <= List.length hs)%nat.
Proof. apply filter_length_le. Qed.

Lemma without_found (i : HeartId) (hs : list Heart) (h : Heart) :
  find (has_id i) hs = Some h ->
  (S (List.length (without i hs)) <= List.length hs)%nat.
Proof.
  induction hs as [|h0 hs IH]; cbn; intros Hf; [discriminate|].
  destruct (has_id i h0); cbn.
  - pose proof (without_shorter i hs). unfold without in *. lia.
  - specialize (IH Hf). unfold without in *. lia.
Qed.

Lemma initial_Bounds (t0 : Z) : Bounds (initial t0).
Proof.
  constructor; cbn; try discriminate; try lia.
  - eexists. split; [reflexivity|]. cbn. lia.
  - constructor.
Qed.

Lemma startLevel_Bounds (st st' : State) (idx : nat) :
  (idx < List.length LEVELS)%nat ->
  settle (startLevel idx st) = st' -> Bounds st'.
Proof.
  intros Hidx <-.
  destruct (LEVELS_some idx Hidx) as [lv Hlv].
  destruct (startLevel_ok st idx lv Hlv)
    as (s & -> & Hph & Hli & Hsc & Htl & Hhs & Htk & Hsp & Hgr & Hnow & _).
  destruct (LEVELS_facts idx lv Hlv) as (_ & Hev & Hdur & Hsec).
  assert (current s = Some lv) as Hcur by (unfold current; rewrite Hli; exact Hlv).
  cbn [settle]. constructor.
  - lia.
  - exists lv. split; [exact Hcur|]. rewrite Htl. lia.
  - intros tk. rewrite Htk. intros E. apply Some_inj in E. subst tk. cbn. lia.
  - intros sp. rewrite Hsp. intros E. apply Some_inj in E. subst sp. cbn.
    split; [lia|]. exists lv. split; [exact Hcur | reflexivity].
  - intros _. rewrite Htk, Hsp. split; discriminate.
  - rewrite Hhs. constructor.
  - rewrite Hph. discriminate.
Qed.

Lemma endLevel_Bounds (st st' : State) (seen : Z) :
  (levelIndex st < List.length LEVELS)%nat ->
  0 <= score st ->
  (exists lv, current st = Some lv /\
              0 <= timeLeft st <= ceil_div (durationMs lv) 1000) ->
  StronglySorted Z.lt (map born (hearts st)) ->
  settle (endLevel seen (levelIndex st) st) = st' -> Bounds st'.
Proof.
  intros Hidx Hsc Htime Hsort <-.
  destruct (LEVELS_some _ Hidx) as [lv Hlv].
  destruct (endLevel_ok st seen _ lv Hlv)
    as (s & -> & Hph & Htk & Hsp & _ & Hhs & Hsc' & Htl & Hli & _).
  cbn [settle]. constructor.
  - lia.
  - unfold current. rewrite Hli, Htl. exact Htime.
  - rewrite Htk. discriminate.
  - rewrite Hsp. discriminate.
  - rewrite Hph. unfold resolvedPhase. destruct (_ && _); discriminate.
  - rewrite Hhs. exact Hsort.
  - rewrite Hph, Hli. unfold resolvedPhase.
    destruct (target lv <=? seen); cbn [andb]; [|discriminate].
    destruct (Z.of_nat (levelIndex st) <? Z.of_nat (List.length LEVELS) - 1) eqn:E;
      cbn [negb]; [discriminate|].
    intros _. apply Z.ltb_ge in E. lia.
Qed.

Lemma backToIntro_Bounds (st : State) : Bounds st -> Bounds (backToIntro st).
Proof.
  intros B. constructor; cbn; try discriminate; try apply B. constructor.
Qed.

Lemma without_Bounds (st : State) (i : HeartId) (d : Z) :
  0 <= d -> Bounds st ->
  Bounds (forceRender (setScore (score st + d) (setHearts (without i (hearts st)) st))).
Proof.
  intros Hd B. constructor; cbn; try apply B.
  - pose proof (b_score st B). lia.
  - apply sorted_without, B.
Qed.

Lemma step_Bounds (st st' : State) (e : Event) :
  Inv st -> Bounds st -> step st e = Some st' -> Bounds st'.
Proof.
  intros I B. destruct e; cbn [step].
  - (* Elapse *)
    destruct (0 <=? dt) eqn:Hdt; [|discriminate]. some_inv.
    apply Z.leb_le in Hdt. constructor; cbn; try apply B.
    + intros tk Htk. destruct (b_tick st B tk Htk). lia.
    + intros sp Hsp. destruct (b_spawn st B sp Hsp) as [Hdue Hlv].
      split; [lia | exact Hlv].
  - (* TickFire *)
    destruct (tickTimer st) as [tk|] eqn:Htk; [|discriminate].
    destruct (fires (tk_due tk) st); [|discriminate]. some_inv.
    destruct (inv_tick st I tk Htk) as (Hidx & lv & Hlv & _).
    destruct (b_tick st B tk Htk) as [Hstart _].
    destruct (LEVELS_facts _ lv Hlv) as (_ & _ & Hdur & _).
    assert (current st = Some lv) as Hcur by (unfold current; rewrite <- Hidx; exact Hlv).
    unfold tick. rewrite Hlv. cbn [now setTickTimer].
    set (left := Z.max 0 (ceil_div (durationMs lv - (now st - tk_startAt tk)) 1000)).
    assert (0 <= left <= ceil_div (durationMs lv) 1000) as Hleft.
    { pose proof (ceil_div_mono (durationMs lv - (now st - tk_startAt tk))
                    (durationMs lv) ltac:(lia)).
      pose proof (ceil_div_spec (durationMs lv)). subst left. lia. }
    destruct (left <=? 0).
    + rewrite Hidx.
      match goal with |- Bounds (settle (endLevel ?a _ ?c)) =>
        apply (endLevel_Bounds c _ a) end; cbn; try apply I; try apply B.
      * exists lv. split; [exact Hcur | exact Hleft].
      * reflexivity.
    + cbn [settle]. constructor; cbn; try apply B.
      * exists lv. split; [exact Hcur | exact Hleft].
      * intros tk' E. apply Some_inj in E. subst tk'. cbn. lia.
      * intros Hph. split; [discriminate | apply (b_armed st B Hph)].
  - (* SpawnFire *)
    destruct (spawnTimer st) as [sp|] eqn:Hsp; [|discriminate].
    destruct (fires (sp_due sp) st) eqn:Hf; [|discriminate].
    destruct (rolls_ok r); [|discriminate]. cbn [andb]. some_inv.
    apply fires_due in Hf. destruct Hf as [Hdue _].
    destruct (inv_spawn st I sp Hsp) as [Hidx Hev].
    destruct (b_spawn st B sp Hsp) as [_ Hlv].
    assert (forall s, phase s = phase st -> levelIndex s = levelIndex st ->
              score s = score st -> timeLeft s = timeLeft st ->
              tickTimer s = tickTimer st -> now s = now st ->
              spawnTimer s = Some {| sp_idx := sp_idx sp; sp_every := sp_every sp;
                                     sp_due := now st + sp_every sp |} ->
              StronglySorted Z.lt (map born (hearts s)) -> Bounds s) as Hmk.
    { intros s Hph Hli Hsc Htl Htk Hnow Hsp' Hsort. constructor.
      - rewrite Hsc. apply B.
      - unfold current. rewrite Hli, Htl. apply B.
      - rewrite Htk, Hnow. apply B.
      - intros sp'. rewrite Hsp', Hnow. intros E. apply Some_inj in E. subst sp'.
        cbn. split; [lia|]. unfold current. rewrite Hli. exact Hlv.
      - rewrite Hph, Htk, Hsp'. intros Hp. split; [apply (b_armed st B Hp) | discriminate].
      - exact Hsort.
      - rewrite Hph, Hli. apply B. }
    unfold spawnHeart. destruct (nth_error LEVELS (sp_idx sp)); cbn [settle].
    + apply Hmk; try reflexivity. cbn. rewrite map_app. cbn.
      apply sorted_snoc; [apply B|].
      intros b Hb. apply in_map_iff in Hb. destruct Hb as (h & <- & Hin).
      destruct (inv_ids st I h Hin) as [_ Hlt]. specialize (Hlt sp Hsp).
      unfold born. lia.
    + apply Hmk; try reflexivity. apply B.
  - (* GraceFire *)
    destruct (graceTimers st) as [|d rest]; [discriminate|].
    destruct (fires d st); [|discriminate]. some_inv.
    constructor; cbn; try apply B. constructor.
  - (* FallDone *)
    destruct (find (has_id i) (hearts st)); [|discriminate].
    destruct (_ <=? _); [|discriminate]. some_inv.
    unfold fallFinished. constructor; cbn; try apply B. apply sorted_without, B.
  - (* Tap *)
    some_inv. unfold onTapHeart.
    destruct (find (has_id i) (hearts st)); [|exact B].
    apply (without_Bounds st i 1); [lia | exact B].
  - (* PressStart *)
    destruct (phase st); try discriminate. some_inv.
    eapply startLevel_Bounds; [|reflexivity]. cbn. lia.
  - (* PressNext *)
    destruct (offered NextLevel st) eqn:Ho; [|discriminate]. some_inv.
    apply offered_reward in Ho. destruct Ho as (_ & lv & _ & Hb).
    apply rewardButton_next in Hb.
    eapply startLevel_Bounds; [|reflexivity]. lia.
  - (* PressOpen *)
    destruct (offered OpenSurprise st) eqn:Ho; [|discriminate]. some_inv.
    apply offered_reward in Ho. destruct Ho as (Hph & lv & _ & Hb).
    constructor; cbn; try apply B; try discriminate.
    intros _. pose proof (inv_index st I) as Hidx.
    unfold rewardButton in Hb.
    destruct (success lv st); cbn [andb] in Hb; [|discriminate].
    destruct (Z.of_nat (levelIndex st) <? Z.of_nat (List.length LEVELS) - 1) eqn:E;
      [discriminate|]. apply Z.ltb_ge in E. cbn in E, Hidx. lia.
  - (* PressRetry *)
    destruct (offered Retry st); [|discriminate]. some_inv.
    eapply startLevel_Bounds; [|reflexivity]. apply I.
  - (* PressBack *)
    destruct (phase st); try discriminate.
    destruct (current st); [|discriminate]. some_inv.
    apply backToIntro_Bounds, B.
  - (* PressQuit *)
    destruct (phase st); try discriminate. some_inv.
    apply backToIntro_Bounds, B.
  - (* PressFinish *)
    destruct (phase st); try discriminate. some_inv.
    apply (endLevel_Bounds st _ (score st)); try apply I; try apply B. reflexivity.
  - (* PressYes *)
    destruct (phase st); try discriminate. some_inv. exact B.
Qed.

Lemma reachable_Bounds (st : State) : reachable st -> Bounds st.
Proof.
  induction 1 as [t0 | st e st' Hr IH Hstep].
  - apply initial_Bounds.
  - eapply step_Bounds; eauto. apply reachable_Inv, Hr.
Qed.

(** ** Further properties of the handlers and the screens *)

Lemma sorted_NoDup (hs : list Heart) :
  StronglySorted Z.lt (map born hs) -> NoDup (map id hs).
Proof.
  induction hs as [|h hs IH]; cbn; intros Hs; [constructor|].
  apply StronglySorted_inv in Hs. destruct Hs as [Hs Hall].
  constructor; [|apply IH, Hs].
  intros Hin. apply in_map_iff in Hin. destruct Hin as (h' & Hid & Hin').
  rewrite Forall_forall in Hall.
  specialize (Hall (born h') (in_map born hs h' Hin')).
  unfold born in Hall. rewrite Hid in Hall. lia.
Qed.

Lemma settle_startLevel_index (st : State) (idx : nat) :
  levelIndex (settle (startLevel idx st)) = idx.
Proof. unfold startLevel. destruct (nth_error LEVELS idx); reflexivity. Qed.

Lemma budget_step (st st' : State) (e : Event) :
  0 <= score st -> step st e = Some st' ->
  0 <= score st' /\
  score st' + Z.of_nat (List.length (hearts st'))
  <= score st + Z.of_nat (List.length (hearts st)) + (if isSpawnFire e then 1 else 0).
Proof.
  intros Hsc. destruct e; cbn [step isSpawnFire].
  - destruct (0 <=? dt); [|discriminate]. some_inv. cbn. lia.
  - destruct (tickTimer st) as [tk|]; [|discriminate].
    destruct (fires (tk_due tk) st); [|discriminate]. some_inv.
    unfold tick. destruct (nth_error LEVELS (tk_idx tk)); [|cbn; lia].
    cbn [now setTickTimer]. destruct (_ <=? 0); [|cbn; lia].
    match goal with |- context [endLevel ?a ?b ?c] =>
      destruct (endLevel_frame c a b) as (Hs & _ & Hh & _) end.
    cbn zeta in Hs, Hh. rewrite Hs, Hh. cbn. lia.
  - destruct (spawnTimer st) as [sp|]; [|discriminate].
    destruct (_ && _); [|discriminate]. some_inv.
    unfold spawnHeart. destruct (nth_error LEVELS (sp_idx sp)); cbn; [|lia].
    rewrite length_app. cbn. lia.
  - destruct (graceTimers st) as [|d rest]; [discriminate|].
    destruct (fires d st); [|discriminate]. some_inv. cbn. lia.
  - destruct (find (has_id i) (hearts st)); [|discriminate].
    destruct (_ <=? _); [|discriminate]. some_inv. cbn.
    pose proof (without_shorter i (hearts st)). lia.
  - some_inv. unfold onTapHeart.
    destruct (find (has_id i) (hearts st)) as [h|] eqn:Hf; [|lia]. cbn.
    pose proof (without_found i (hearts st) h Hf). lia.
  - destruct (phase st); try discriminate. some_inv.
    unfold startLevel. destruct (nth_error LEVELS 0); cbn; lia.
  - destruct (offered NextLevel st); [|discriminate]. some_inv.
    unfold startLevel. destruct (nth_error LEVELS _); cbn; lia.
  - destruct (offered OpenSurprise st); [|discriminate]. some_inv. cbn. lia.
  - destruct (offered Retry st); [|discriminate]. some_inv.
    unfold startLevel. destruct (nth_error LEVELS _); cbn; lia.
  - destruct (phase st); try discriminate.
    destruct (current st); [|discriminate]. some_inv. cbn. lia.
  - destruct (phase st); try discriminate. some_inv. cbn. lia.
  - destruct (phase st); try discriminate. some_inv.
    destruct (endLevel_frame st (score st) (levelIndex st)) as (Hs & _ & Hh & _).
    cbn zeta in Hs, Hh. rewrite Hs, Hh. lia.
  - destruct (phase st); try discriminate. some_inv. lia.
Qed.

Lemma budget_run (es : list Event) (st st' : State) :
  0 <= score st -> run st es = Some st' ->
  0 <= score st' /\
  score st' + Z.of_nat (List.length (hearts st'))
  <= score st + Z.of_nat (List.length (hearts st))
     + Z.of_nat (List.length (filter isSpawnFire es)).
Proof.
  revert st. induction es as [|e es IH]; cbn [run filter]; intros st Hsc.
  - some_inv. cbn. lia.
  - destruct (step st e) as [s|] eqn:Hs; [|discriminate]. intros Hrun.
    destruct (budget_step st s e Hsc Hs) as [Hsc' Hb].
    destruct (IH s Hsc' Hrun) as [Hsc'' Hb'].
    split; [exact Hsc''|].
    destruct (isSpawnFire e); cbn [List.length]; lia.
Qed.

Lemma reward_buttons (st : State) (lv : Level) :
  phase st = reward -> current st = Some lv ->
  (offered Retry st = true <-> score st < target lv) /\
  (offered NextLevel st = true <->
     target lv <= score st /\ (levelIndex st + 1 < List.length LEVELS)%nat) /\
  (offered OpenSurprise st = true <->
     target lv <= score st /\ (List.length LEVELS <= levelIndex st + 1)%nat).
Proof.
  intros Hph Hcur. unfold offered, rewardButton, success. rewrite Hph, Hcur.
  change (List.length LEVELS) with 3%nat.
  destruct (target lv <=? score st) eqn:Hs; cbn [andb].
  - apply Z.leb_le in Hs.
    destruct (Z.of_nat (levelIndex st) <? Z.of_nat 3 - 1) eqn:E1.
    + apply Z.ltb_lt in E1. cbn [Button_eqb].
      repeat split; intros; try discriminate; try reflexivity; lia.
    + apply Z.ltb_ge in E1.
      destruct (Z.of_nat (levelIndex st) >=? Z.of_nat 3 - 1) eqn:E2.
      * cbn [Button_eqb].
        repeat split; intros; try discriminate; try reflexivity; lia.
      * rewrite Z.geb_leb in E2. apply Z.leb_gt in E2. lia.
  - apply Z.leb_gt in Hs. cbn [Button_eqb].
    repeat split; intros; try discriminate; try reflexivity; lia.
Qed.

Lemma expiry_fields (st st' : State) (tk : TickTimer) (lv : Level) :
  tickTimer st = Some tk -> nth_error LEVELS (tk_idx tk) = Some lv ->
  remaining lv (tk_startAt tk) (now st) = 0 ->
  step st TickFire = Some st' ->
  phase st' = resolvedPhase lv (tk_score tk) (tk_idx tk) /\
  score st' = score st /\ levelIndex st' = levelIndex st.
Proof.
  intros Htk Hlv Hrem. cbn [step]. rewrite Htk.
  destruct (fires (tk_due tk) st); [|discriminate]. some_inv.
  unfold tick. rewrite Hlv. cbn [now setTickTimer].
  unfold remaining in Hrem.
  pose proof (ceil_div_spec (durationMs lv - (now st - tk_startAt tk))) as Hc.
  destruct (_ <=? 0) eqn:Hle; [|apply Z.leb_gt in Hle; lia].
  match goal with |- context [endLevel ?a ?b ?c] =>
    destruct (endLevel_ok c a b lv Hlv)
      as (s & -> & Hph & _ & _ & _ & _ & Hsc & _ & Hli & _) end.
  cbn [settle]. rewrite Hph, Hsc, Hli. repeat split; reflexivity.
Qed.

Lemma proposal_step (st st' : State) (e : Event) :
  Inv st -> phase st = proposal -> step st e = Some st' ->
  phase st' = proposal /\ levelIndex st' = levelIndex st.
Proof.
  intros I Hph.
  destruct (inv_idle st I) as [Htk Hsp]; [congruence|].
  destruct e; cbn [step]; rewrite ?Htk, ?Hsp, ?Hph; try discriminate.
  - destruct (0 <=? dt); [|discriminate]. some_inv. cbn. auto.
  - destruct (graceTimers st) as [|d rest]; [discriminate|].
    destruct (fires d st); [|discriminate]. some_inv. cbn. auto.
  - destruct (find (has_id i) (hearts st)); [|discriminate].
    destruct (_ <=? _); [|discriminate]. some_inv. cbn. auto.
  - some_inv. unfold onTapHeart. destruct (find (has_id i) (hearts st)); cbn; auto.
  - unfold offered. rewrite Hph. discriminate.
  - unfold offered. rewrite Hph. discriminate.
  - unfold offered. rewrite Hph. discriminate.
  - some_inv. auto.
Qed.

(** X3: in every reachable state the live hearts are listed in the order
    they were spawned, with strictly increasing creation times not after
    now, so their ids are pairwise distinct and a tap on a live heart
    removes exactly one heart, as does the completion of a fall, which
    leaves the score alone. *)
Theorem hearts_are_in_spawn_order (st : State) :
  reachable st ->
  StronglySorted Z.lt (map born (hearts st)) /\
  NoDup (map id (hearts st)) /\
  (forall h, In h (hearts st) -> born h <= now st) /\
  (forall i, existsb (has_id i) (hearts st) = true ->
     S (List.length (hearts (onTapHeart i st))) = List.length (hearts st)) /\
  (forall i st', step st (FallDone i) = Some st' ->
     S (List.length (hearts st')) = List.length (hearts st) /\
     score st' = score st).
Proof.
  intros Hr. pose proof (reachable_Bounds st Hr) as B.
  apply reachable_Inv in Hr. pose proof (b_sorted st B) as Hs.
  split; [exact Hs|]. split; [apply sorted_NoDup, Hs|]. split; [|split].
  - intros h Hin. apply (inv_ids st Hr h Hin).
  - intros i Hex. apply find_existsb in Hex. destruct Hex as [h Hh].
    unfold onTapHeart. rewrite Hh. cbn. apply (without_one i _ h Hs Hh).
  - intros i st'. cbn [step].
    destruct (find (has_id i) (hearts st)) as [h|] eqn:Hh; [|discriminate].
    destruct (_ <=? _); [|discriminate]. some_inv. cbn.
    split; [apply (without_one i _ h Hs Hh) | reflexivity].
Qed.

(** X4: from the start of a level on, whatever is delivered, the score is
    never negative and never more than the number of hearts spawned since. *)
Theorem score_is_bounded_by_spawns
    (st st1 st' : State) (idx : nat) (es : list Event) :
  startLevel idx st = Returned st1 -> run st1 es = Some st' ->
  0 <= score st' <= Z.of_nat (List.length (filter isSpawnFire es)).
Proof.
  intros Hs Hrun.
  assert (score st1 = 0 /\ hearts st1 = []) as [Hsc Hhs].
  { unfold startLevel in Hs. destruct (nth_error LEVELS idx); [|discriminate].
    injection Hs as <-. split; reflexivity. }
  destruct (budget_run es st1 st' ltac:(lia) Hrun) as [H0 Hb].
  rewrite Hsc, Hhs in Hb. cbn in Hb. lia.
Qed.

(** X5: in every reachable state the remaining time shown is between 0 and
    the full duration of the level at [levelIndex], in seconds. *)
Theorem time_left_is_within_the_level (st : State) :
  reachable st ->
  exists lv, current st = Some lv /\
    0 <= timeLeft st <= ceil_div (durationMs lv) 1000 /\
    1000 * timeLeft st <= durationMs lv.
Proof.
  intros Hr. destruct (b_time st (reachable_Bounds st Hr)) as (lv & Hcur & Hb).
  exists lv. split; [exact Hcur|]. split; [exact Hb|].
  destruct (LEVELS_facts _ lv Hcur) as (_ & _ & _ & Hsec). lia.
Qed.

(** X6: in every reachable state the countdown and the spawner are armed
    exactly while the phase is playing; the countdown was started no later
    than now, and no pending timer is due later than one period from now
    (250 ms for the countdown and the grace timeouts, the level's
    [spawnEveryMs] for the spawner). *)
Theorem timers_are_armed_while_playing (st : State) :
  reachable st ->
  (phase st = playing <-> exists tk, tickTimer st = Some tk) /\
  (phase st = playing <-> exists sp, spawnTimer st = Some sp) /\
  (forall tk, tickTimer st = Some tk ->
     tk_startAt tk <= now st /\ tk_due tk <= now st + 250) /\
  (forall sp, spawnTimer st = Some sp ->
     exists lv, current st = Some lv /\ sp_every sp = spawnEveryMs lv /\
                sp_due sp <= now st + spawnEveryMs lv) /\
  (forall d, In d (graceTimers st) -> d <= now st + 250).
Proof.
  intros Hr. pose proof (reachable_Bounds st Hr) as B. apply reachable_Inv in Hr.
  assert (phase st <> playing -> tickTimer st = None /\ spawnTimer st = None) as Hidle
    by apply Hr.
  split; [|split; [|split; [|split]]].
  - split.
    + intros Hph. destruct (b_armed st B Hph) as [Hne _].
      destruct (tickTimer st) as [tk|]; [eauto | contradiction].
    + intros [tk Htk]. destruct (phase st) eqn:Hph; try reflexivity;
        destruct Hidle as [Hnone _]; congruence.
  - split.
    + intros Hph. destruct (b_armed st B Hph) as [_ Hne].
      destruct (spawnTimer st) as [sp|]; [eauto | contradiction].
    + intros [sp Hsp]. destruct (phase st) eqn:Hph; try reflexivity;
        destruct Hidle as [_ Hnone]; congruence.
  - apply B.
  - intros sp Hsp. destruct (b_spawn st B sp Hsp) as (Hdue & lv & Hcur & Hev).
    exists lv. split; [exact Hcur|]. split; [exact Hev | lia].
  - apply Hr.
Qed.

(** X7: in every reachable state [LEVELS[levelIndex]] is defined, so the
    screens can read [current]; and the handlers the runtime or the player
    can call then (the countdown tick, the spawner, [endLevel] for the
    current level) return without raising. *)
Theorem handlers_do_not_raise (st : State) :
  reachable st ->
  (exists lv, current st = Some lv) /\
  (forall tk s, tickTimer st = Some tk -> exists s', tick tk s = Returned s') /\
  (forall sp r s, spawnTimer st = Some sp ->
     exists s', spawnHeart (sp_idx sp) r s = Returned s') /\
  (forall seen s, exists s', endLevel seen (levelIndex st) s = Returned s').
Proof.
  intros Hr. apply reachable_Inv in Hr.
  destruct (LEVELS_some _ (inv_index st Hr)) as [lv Hlv].
  split; [exists lv; exact Hlv|]. split; [|split].
  - intros tk s Htk. destruct (inv_tick st Hr tk Htk) as (_ & lv' & Hlv' & _).
    unfold tick. rewrite Hlv'. destruct (_ <=? 0); [|eauto].
    match goal with |- context [endLevel ?a ?b ?c] =>
      destruct (endLevel_ok c a b lv' Hlv') as (s' & -> & _) end.
    eauto.
  - intros sp r s Hsp. destruct (inv_spawn st Hr sp Hsp) as [Hidx _].
    unfold spawnHeart. rewrite Hidx, Hlv. eauto.
  - intros seen s. destruct (endLevel_ok s seen _ lv Hlv) as (s' & -> & _). eauto.
Qed.

(** X8: the reward screen offers exactly one way on: Retry when the score is
    below the target, Next Level when the target is reached on a level
    before the last, Open Surprise when it is reached on the last level. *)
Theorem reward_screen_offers_one_way_on (st : State) (lv : Level) :
  phase st = reward -> current st = Some lv ->
  (offered Retry st = true <-> score st < target lv) /\
  (offered NextLevel st = true <->
     target lv <= score st /\ (levelIndex st + 1 < List.length LEVELS)%nat) /\
  (offered OpenSurprise st = true <->
     target lv <= score st /\ (List.length LEVELS <= levelIndex st + 1)%nat) /\
  exists b, offered b st = true /\ forall b', offered b' st = true -> b' = b.
Proof.
  intros Hph Hcur.
  destruct (reward_buttons st lv Hph Hcur) as (HR & HN & HO).
  split; [exact HR|]. split; [exact HN|]. split; [exact HO|].
  exists (rewardButton lv st). unfold offered. rewrite Hph, Hcur. split.
  - destruct (rewardButton lv st); reflexivity.
  - intros b'. destruct (rewardButton lv st), b'; cbn; congruence.
Qed.

(** X9: no event skips a level: the level index stays, or Start on the intro
    screen sets it to 0, or Next Level on the reward screen, which needs the
    target of the current level reached, adds one. *)
Theorem levels_are_not_skipped (st st' : State) (e : Event) :
  step st e = Some st' ->
  levelIndex st' = levelIndex st \/
  (e = PressStart /\ phase st = intro /\ levelIndex st' = 0%nat) \/
  (e = PressNext /\ phase st = reward /\ levelIndex st' = S (levelIndex st) /\
   exists lv, current st = Some lv /\ target lv <= score st).
Proof.
  destruct e; cbn [step].
  - destruct (0 <=? dt); [|discriminate]. some_inv. left. reflexivity.
  - destruct (tickTimer st) as [tk|]; [|discriminate].
    destruct (fires (tk_due tk) st); [|discriminate]. some_inv. left.
    unfold tick. destruct (nth_error LEVELS (tk_idx tk)); [|reflexivity].
    cbn [now setTickTimer]. destruct (_ <=? 0); [|reflexivity].
    match goal with |- context [endLevel ?a ?b ?c] =>
      destruct (endLevel_frame c a b) as (_ & _ & _ & Hli & _) end.
    cbn zeta in Hli. rewrite Hli. reflexivity.
  - destruct (spawnTimer st) as [sp|]; [|discriminate].
    destruct (_ && _); [|discriminate]. some_inv. left.
    unfold spawnHeart. destruct (nth_error LEVELS (sp_idx sp)); reflexivity.
  - destruct (graceTimers st) as [|d rest]; [discriminate|].
    destruct (fires d st); [|discriminate]. some_inv. left. reflexivity.
  - destruct (find (has_id i) (hearts st)); [|discriminate].
    destruct (_ <=? _); [|discriminate]. some_inv. left. reflexivity.
  - some_inv. left. unfold onTapHeart.
    destruct (find (has_id i) (hearts st)); reflexivity.
  - destruct (phase st) eqn:Hph; try discriminate. some_inv. right. left.
    rewrite settle_startLevel_index. auto.
  - destruct (offered NextLevel st) eqn:Ho; [|discriminate]. some_inv.
    right. right. apply offered_reward in Ho. destruct Ho as (Hph & lv & Hcur & Hb).
    apply rewardButton_next in Hb. rewrite settle_startLevel_index.
    split; [reflexivity|]. split; [exact Hph|]. split; [lia|].
    exists lv. split; [exact Hcur | apply Hb].
  - destruct (offered OpenSurprise st); [|discriminate]. some_inv. left. reflexivity.
  - destruct (offered Retry st); [|discriminate]. some_inv. left.
    apply settle_startLevel_index.
  - destruct (phase st); try discriminate.
    destruct (current st); [|discriminate]. some_inv. left. reflexivity.
  - destruct (phase st); try discriminate. some_inv. left. reflexivity.
  - destruct (phase st); try discriminate. some_inv. left.
    apply (endLevel_frame st (score st) (levelIndex st)).
  - destruct (phase st); try discriminate. some_inv. left. reflexivity.
Qed.

(** X10: the proposal screen is shown on the last level only and is never
    left: from a reachable state in the proposal phase, whatever is
    delivered, the phase stays proposal, the level index stays the last one
    and no interval is armed. *)
Theorem proposal_is_never_left (st st' : State) (es : list Event) :
  reachable st -> phase st = proposal -> run st es = Some st' ->
  phase st' = proposal /\ levelIndex st' = levelIndex st /\
  S (levelIndex st') = List.length LEVELS /\
  tickTimer st' = None /\ spawnTimer st' = None.
Proof.
  intros Hr Hph Hrun.
  assert (phase st' = proposal /\ levelIndex st' = levelIndex st) as [Hph' Hli].
  { pose proof (reachable_Inv st Hr) as I. clear Hr.
    revert st I Hph Hrun. induction es as [|e es IH]; cbn [run]; intros st I Hph.
    - some_inv. auto.
    - destruct (step st e) as [s|] eqn:Hs; [|discriminate]. intros Hrun.
      destruct (proposal_step st s e I Hph Hs) as [Hph1 Hli1].
      destruct (IH s (step_Inv st s e I Hs) Hph1 Hrun) as [Hph2 Hli2].
      split; [exact Hph2 | congruence]. }
  pose proof (run_reachable st st' es Hr Hrun) as Hr'.
  split; [exact Hph'|]. split; [exact Hli|].
  split; [apply (b_last st' (reachable_Bounds st' Hr') Hph')|].
  apply (inv_idle st' (reachable_Inv st' Hr')). congruence.
Qed.

(** X11: when the countdown of a level before the last runs out, the phase
    becomes reward whatever score the countdown's closure holds, and the
    reward screen decides from the score of the attempt: Next Level when it
    reaches the target, Retry when it does not. *)
Theorem expiry_before_the_last_level_shows_the_live_result
    (st st' : State) (tk : TickTimer) (lv : Level) :
  reachable st ->
  tickTimer st = Some tk -> nth_error LEVELS (tk_idx tk) = Some lv ->
  (S (tk_idx tk) < List.length LEVELS)%nat ->
  remaining lv (tk_startAt tk) (now st) = 0 ->
  step st TickFire = Some st' ->
  phase st' = reward /\ score st' = score st /\
  (offered NextLevel st' = true <-> target lv <= score st) /\
  (offered Retry st' = true <-> score st < target lv) /\
  offered OpenSurprise st' = false.
Proof.
  intros Hr Htk Hlv Hnot Hrem Hs. apply reachable_Inv in Hr.
  destruct (inv_tick st Hr tk Htk) as (Hidx & _).
  destruct (expiry_fields st st' tk lv Htk Hlv Hrem Hs) as (Hph & Hsc & Hli).
  assert (phase st' = reward) as Hrew.
  { rewrite Hph. unfold resolvedPhase.
    assert ((Z.of_nat (tk_idx tk) <? Z.of_nat (List.length LEVELS) - 1) = true) as E
      by (apply Z.ltb_lt; lia).
    rewrite E. cbn [negb]. rewrite andb_false_r. reflexivity. }
  assert (current st' = Some lv) as Hcur
    by (unfold current; rewrite Hli, <- Hidx; exact Hlv).
  destruct (reward_buttons st' lv Hrew Hcur) as (HR & HN & HO).
  rewrite Hsc, Hli, <- Hidx in *.
  split; [exact Hrew|]. split; [reflexivity|]. split; [|split].
  - rewrite HN. split; [intros [Hle _]; exact Hle | intros Hle; split; [exact Hle | lia]].
  - exact HR.
  - apply not_true_is_false. intros Ho. apply HO in Ho. lia.
Qed.

(** X12: Finish decides from the score of the attempt: the phase becomes
    proposal exactly when the target is reached on the last level, and
    reward otherwise, where Retry is offered exactly when the target was
    missed; the score is kept and both intervals are stopped. *)
Theorem finish_decides_from_the_live_score (st st' : State) (lv : Level) :
  current st = Some lv ->
  step st PressFinish = Some st' ->
  score st' = score st /\ tickTimer st' = None /\ spawnTimer st' = None /\
  (phase st' = proposal <->
     target lv <= score st /\ (List.length LEVELS <= levelIndex st + 1)%nat) /\
  (phase st' = reward <->
     score st < target lv \/ (levelIndex st + 1 < List.length LEVELS)%nat) /\
  (score st < target lv -> offered Retry st' = true) /\
  graceTimers st' = graceTimers st ++ [now st + 250].
Proof.
  intros Hcur. cbn [step]. destruct (phase st); try discriminate. some_inv.
  destruct (endLevel_ok st (score st) (levelIndex st) lv Hcur)
    as (s & -> & Hph & Htk & Hsp & Hgr & _ & Hsc & _ & Hli & _).
  cbn [settle].
  assert (current s = Some lv) as Hcur' by (unfold current; rewrite Hli; exact Hcur).
  split; [exact Hsc|]. split; [exact Htk|]. split; [exact Hsp|].
  unfold resolvedPhase in Hph. change (List.length LEVELS) with 3%nat in *.
  destruct (target lv <=? score st) eqn:Hs; cbn [andb] in Hph.
  - apply Z.leb_le in Hs.
    destruct (Z.of_nat (levelIndex st) <? Z.of_nat 3 - 1) eqn:E; cbn [negb] in Hph.
    + apply Z.ltb_lt in E. rewrite Hph.
      repeat split; intros; try discriminate; try reflexivity; try exact Hgr; lia.
    + apply Z.ltb_ge in E. rewrite Hph.
      repeat split; intros; try discriminate; try reflexivity; try exact Hgr; lia.
  - apply Z.leb_gt in Hs. rewrite Hph.
    split; [|split; [|split]]; try exact Hgr.
    + split; [discriminate | lia].
    + split; [left; exact Hs | reflexivity].
    + intros _. apply (reward_buttons s lv Hph Hcur'). rewrite Hsc. exact Hs.
Qed.

End Window.

(** ** Concrete runs on a 390 x 844 window *)

Ltac reached o :=
  let v := eval vm_compute in o in
  lazymatch v with
  | Some (Returned ?s) => exists s
  | Some (Threw ?s) => exists s
  | Some ?s => exists s
  end.

Ltac by_run := vm_compute; reflexivity.

(** C1: level 1 is finished with 18 taps, level 2 with 26 taps, and level 3
    (target 26) is then left untouched until its countdown runs out.  The
    claim says the attempt fails; the countdown's [endLevel] compares the 26
    that was on screen when Next Level was pressed, and the session ends in
    the proposal phase with a score of 0. *)
Theorem idle_final_level_ends_in_proposal :
  option_map
    (fun st => (phase st, levelIndex st, score st, option_map target (current st)))
    (run W H (initial 0) (idle_final_level W H))
  = Some (proposal, 2%nat, 0, Some 26).
Proof. by_run. Qed.

(** C8: level 1 is finished with 18 taps, level 2 with 22 taps, and on
    level 3 (target 26) every heart is tapped until the countdown runs out,
    42 in all: a pass on the last level.  The claim says it produces the
    terminal signal (the proposal phase, as a pass by Finish does); the
    countdown's [endLevel] compares the 22 that was on screen when Next
    Level was pressed, takes the attempt for failed and leaves for the
    reward phase, from where Back to Start returns to the intro screen. *)
Theorem busy_final_level_ends_on_the_reward_screen :
  option_map
    (fun st => (phase st, levelIndex st, score st, option_map target (current st),
                offered OpenSurprise st, offered NextLevel st))
    (run W H (initial 0) (busy_final_level W H))
  = Some (reward, 2%nat, 42, Some 26, true, false) /\
  option_map phase (run W H (initial 0) (busy_final_level W H ++ [PressBack]))
  = Some intro /\
  option_map phase (run W H (initial 0) (busy_final_level W H ++ [PressOpen]))
  = Some proposal.
Proof. repeat split; by_run. Qed.

(** C2, counterexample: with one heart in flight on level 1, [startLevel 3]
    raises, and by then the heart and both timers are gone. *)
Lemma out_of_range_start_clears_the_session :
  exists st st',
    run W H (initial 0) one_heart = Some st /\
    (List.length LEVELS <= 3)%nat /\
    startLevel 3 st = Threw st' /\
    List.length (hearts st) = 1%nat /\ hearts st' = [] /\
    tickTimer st <> None /\ tickTimer st' = None /\
    session st' <> session st.
Proof.
  reached (run W H (initial 0) one_heart).
  reached (option_map (startLevel 3) (run W H (initial 0) one_heart)).
  split; [by_run|]. split; [cbn; lia|]. split; [by_run|].
  split; [by_run|]. split; [by_run|]. split; [vm_compute; discriminate|].
  split; [by_run|]. vm_compute. intros E. discriminate E.
Qed.

Lemma start_is_called_in_range_at_launch :
  reachable W H (initial 0) /\
  (levelIndex (initial 0) < List.length LEVELS)%nat /\
  forall st', step W H (initial 0) PressStart = Some st' ->
              startLevel 0 (initial 0) = Returned st'.
Proof.
  split; [apply reach_initial|].
  pose proof (start_is_called_in_range W H (initial 0) (reach_initial W H 0)) as T.
  split; [apply T | apply T].
Defined.

(** C3, witness: level 1 is finished at once, Retry is pressed before the
    grace timeout of that attempt is due, and the timeout fires 250 ms into
    the new attempt. *)
Lemma stale_grace_timeout_changes_nothing :
  exists st st1 s s',
    run W H (initial 0) [PressStart; PressFinish] = Some st /\
    reachable W H st /\
    startLevel 0 st = Returned st1 /\
    run W H st1 [Elapse 250; TickFire] = Some s /\
    (List.length (filter isGraceFire [Elapse 250; TickFire])
     < List.length (graceTimers st))%nat /\
    step W H s GraceFire = Some s' /\
    session s' = session s.
Proof.
  reached (run W H (initial 0) [PressStart; PressFinish]).
  reached (run W H (initial 0) [PressStart; PressFinish; PressRetry]).
  reached (run W H (initial 0) [PressStart; PressFinish; PressRetry; Elapse 250; TickFire]).
  reached (run W H (initial 0)
             [PressStart; PressFinish; PressRetry; Elapse 250; TickFire; GraceFire]).
  match goal with
  | |- run _ _ _ _ = Some ?st /\ _ /\ startLevel _ _ = Returned ?st1 /\
       run _ _ _ _ = Some ?s /\ _ /\ step _ _ _ _ = Some ?s' /\ _ =>
      assert (reachable W H st) as R
        by (apply (run_reachable W H (initial 0) st [PressStart; PressFinish]);
            [apply reach_initial | by_run]);
      pose proof (proj2 (proj2 (proj2 (proj2 (proj2
                    (no_timer_outlives_its_level W H st R)))))
                    0%nat st1 [Elapse 250; TickFire] s s'
                    ltac:(by_run) ltac:(by_run) ltac:(cbn; lia) ltac:(by_run)) as T
  end.
  split; [by_run|]. split; [exact R|].
  split; [by_run|]. split; [by_run|]. split; [cbn; lia|]. split; [by_run|].
  exact T.
Defined.



Lemma retry_resets_level_three :
  nth_error LEVELS 2 =
    Some {| level := 3; durationMs := 22000; target := 26;
            spawnEveryMs := 520; fallMs := 2100 |} /\
  exists st',
    startLevel 2 (setTimeLeft 3 (setScore 7 (initial 0))) = Returned st' /\
    score st' = 0 /\
    timeLeft st' = ceil_div 22000 1000 /\
    1000 * timeLeft st' = 22000 /\
    hearts st' = [] /\
    phase st' = playing /\
    levelIndex st' = 2%nat.
Proof.
  split; [reflexivity|].
  exact (start_resets_level (setTimeLeft 3 (setScore 7 (initial 0))) 2 _ eq_refl).
Defined.

(** C6, counterexample: 250 ms into level 1 the first tick stores 20, not
    the 19750 that [max(0, durationMs - elapsed)] gives. *)
Lemma first_tick_stores_seconds :
  exists st st' tk lv,
    run W H (initial 0) [PressStart; Elapse 250] = Some st /\
    tickTimer st = Some tk /\
    nth_error LEVELS (tk_idx tk) = Some lv /\
    step W H st TickFire = Some st' /\
    Z.max 0 (durationMs lv - (now st - tk_startAt tk)) = 19750 /\
    timeLeft st' = 20 /\
    timeLeft st' <> Z.max 0 (durationMs lv - (now st - tk_startAt tk)).
Proof.
  reached (run W H (initial 0) [PressStart; Elapse 250]).
  reached (run W H (initial 0) [PressStart; Elapse 250; TickFire]).
  exists {| tk_idx := 0; tk_startAt := 0; tk_score := 0; tk_due := 250 |}.
  exists {| level := 1; durationMs := 20000; target := 18;
            spawnEveryMs := 700; fallMs := 2800 |}.
  repeat split; try by_run. vm_compute. discriminate.
Qed.

Lemma last_tick_of_level_one :
  exists st st' tk lv,
    run W H (initial 0) [PressStart; Elapse 20000] = Some st /\
    tickTimer st = Some tk /\
    nth_error LEVELS (tk_idx tk) = Some lv /\
    step W H st TickFire = Some st' /\
    remaining lv (tk_startAt tk) (now st) = 0 /\
    timeLeft st' = 0 /\ tickTimer st' = None /\ spawnTimer st' = None /\
    (phase st' = reward \/ phase st' = proposal).
Proof.
  reached (run W H (initial 0) [PressStart; Elapse 20000]).
  reached (run W H (initial 0) [PressStart; Elapse 20000; TickFire]).
  exists {| tk_idx := 0; tk_startAt := 0; tk_score := 0; tk_due := 250 |}.
  exists {| level := 1; durationMs := 20000; target := 18;
            spawnEveryMs := 700; fallMs := 2800 |}.
  match goal with |- _ /\ tickTimer ?st = Some ?tk /\ nth_error _ _ = Some ?lv /\
                     step _ _ _ _ = Some ?st' /\ _ =>
    pose proof (tick_counts_whole_seconds W H st st' tk lv
                  ltac:(by_run) ltac:(by_run) ltac:(by_run))
      as (_ & _ & Hz & Hstop & _)
  end.
  split; [by_run|]. split; [by_run|]. split; [by_run|]. split; [by_run|].
  split; [by_run|]. split; [apply Hz; by_run|]. apply Hstop. by_run.
Defined.

Ltac play :=
  lazymatch goal with
  | |- playing_run _ _ _ [] _ => apply playing_nil
  | |- playing_run _ _ ?s (?e :: _) _ =>
      let v := eval vm_compute in (step W H s e) in
      lazymatch v with
      | Some ?s1 => apply (playing_cons W H s e s1); [by_run | by_run | play]
      end
  end.

(** C9, witness: the first second of level 1, with one heart tapped. *)
Lemma first_second_of_level_one :
  exists st st',
    run W H (initial 0) [PressStart] = Some st /\
    reachable W H st /\
    playing_run W H st
      [Elapse 250; TickFire; Elapse 250; TickFire; Elapse 200; SpawnFire still;
       Tap (uid 700 "8"); Elapse 50; TickFire; Elapse 250; TickFire] st' /\
    timeLeft st = 20 /\ timeLeft st' = 19 /\ score st = 0 /\ score st' = 1 /\
    timeLeft st' <= timeLeft st /\ score st <= score st'.
Proof.
  reached (run W H (initial 0) [PressStart]).
  reached (run W H (initial 0)
             ([PressStart] ++
              [Elapse 250; TickFire; Elapse 250; TickFire; Elapse 200; SpawnFire still;
               Tap (uid 700 "8"); Elapse 50; TickFire; Elapse 250; TickFire])).
  match goal with
  | |- run _ _ _ _ = Some ?st /\ _ /\ playing_run _ _ _ ?es ?st' /\ _ =>
      assert (reachable W H st) as R
        by (apply (run_reachable W H (initial 0) st [PressStart]);
            [apply reach_initial | by_run]);
      assert (playing_run W H st es st') as P by play;
      pose proof (running_level_is_monotone W H st st' es R P) as T
  end.
  split; [by_run|]. split; [exact R|]. split; [exact P|].
  split; [by_run|]. split; [by_run|]. split; [by_run|]. split; [by_run|].
  exact T.
Defined.

(** C10, witness: Quit with one heart in flight on level 1. *)
Lemma quit_with_one_heart_in_flight :
  exists st st',
    run W H (initial 0) (one_heart ++ [Tap (uid 700 "8"); Elapse 700; TickFire; SpawnFire still])
      = Some st /\
    step W H st PressQuit = Some st' /\
    score st = 1 /\ List.length (hearts st) = 1%nat /\
    phase st' = intro /\ tickTimer st' = None /\ spawnTimer st' = None /\
    hearts st' = [] /\ score st' = 1 /\ levelIndex st' = levelIndex st.
Proof.
  reached (run W H (initial 0)
             (one_heart ++ [Tap (uid 700 "8"); Elapse 700; TickFire; SpawnFire still])).
  reached (run W H (initial 0)
             (one_heart ++ [Tap (uid 700 "8"); Elapse 700; TickFire; SpawnFire still; PressQuit])).
  match goal with
  | |- _ /\ step _ _ ?st _ = Some ?st' /\ _ =>
      pose proof (quit_keeps_the_score W H st st' ltac:(by_run))
        as (_ & Hph & Htk & Hsp & Hhs & Hsc & Hli & _)
  end.
  split; [by_run|]. split; [by_run|]. split; [by_run|]. split; [by_run|].
  split; [exact Hph|]. split; [exact Htk|]. split; [exact Hsp|].
  split; [exact Hhs|]. split; [rewrite Hsc; by_run | exact Hli].
Defined.

(** X1, witness: Next Level pressed with 26 on screen, then level 3 left
    alone for its 22 seconds. *)
Lemma countdown_of_level_three_reads_26 :
  exists st st' tk lv,
    run W H (setPhase reward (setLevelIndex 1 (setScore 26 (initial 0))))
      [PressNext; Elapse 22000] = Some st /\
    tickTimer st = Some tk /\
    nth_error LEVELS (tk_idx tk) = Some lv /\
    remaining lv (tk_startAt tk) (now st) = 0 /\
    step W H st TickFire = Some st' /\
    tk_score tk = 26 /\ score st = 0 /\ target lv = 26 /\
    phase st' = proposal /\ score st' = 0.
Proof.
  reached (run W H (setPhase reward (setLevelIndex 1 (setScore 26 (initial 0))))
             [PressNext; Elapse 22000]).
  reached (run W H (setPhase reward (setLevelIndex 1 (setScore 26 (initial 0))))
             [PressNext; Elapse 22000; TickFire]).
  exists {| tk_idx := 2; tk_startAt := 0; tk_score := 26; tk_due := 250 |}.
  exists {| level := 3; durationMs := 22000; target := 26;
            spawnEveryMs := 520; fallMs := 2100 |}.
  match goal with
  | |- _ /\ tickTimer ?st = Some ?tk /\ nth_error _ _ = Some ?lv /\ _ /\
       step _ _ _ _ = Some ?st' /\ _ =>
      pose proof (expiry_compares_the_score_seen_at_start W H st st' tk lv
                    ltac:(by_run) ltac:(by_run) ltac:(by_run) ltac:(by_run))
        as (Hph & Hsc)
  end.
  split; [by_run|]. split; [by_run|]. split; [by_run|]. split; [by_run|].
  split; [by_run|]. split; [by_run|]. split; [by_run|]. split; [by_run|].
  split; [rewrite Hph; by_run | rewrite Hsc; by_run].
Defined.

(** ** Concrete runs for the further properties *)

Ltac reach_by es :=
  apply (run_reachable W H (initial 0) _ es); [apply reach_initial | by_run].

(** X3, witness: two hearts in flight on level 1. *)
Lemma two_hearts_in_flight :
  exists st,
    run W H (initial 0) (one_heart ++ [Elapse 700; TickFire; SpawnFire lively]) = Some st /\
    reachable W H st /\
    map born (hearts st) = [700; 1400] /\
    StronglySorted Z.lt (map born (hearts st)) /\
    NoDup (map id (hearts st)) /\
    S (List.length (hearts (onTapHeart (uid 1400 "c4") st))) = List.length (hearts st).
Proof.
  reached (run W H (initial 0) (one_heart ++ [Elapse 700; TickFire; SpawnFire lively])).
  match goal with
  | |- _ /\ reachable _ _ ?st /\ _ =>
      assert (reachable W H st) as R
        by reach_by (one_heart ++ [Elapse 700; TickFire; SpawnFire lively]);
      pose proof (hearts_are_in_spawn_order W H st R) as (Hs & Hn & _ & Htap & _)
  end.
  split; [by_run|]. split; [exact R|]. split; [by_run|].
  split; [exact Hs|]. split; [exact Hn|]. apply Htap. by_run.
Defined.

(** X4, witness: one heart spawned and tapped. *)
Lemma one_spawn_one_point :
  exists st1 st',
    startLevel 0 (initial 0) = Returned st1 /\
    run W H st1 [Elapse 250; TickFire; Elapse 250; TickFire; Elapse 200;
                 SpawnFire still; Tap (uid 700 "8")] = Some st' /\
    score st' = 1 /\
    0 <= score st' <=
      Z.of_nat (List.length
                  (filter isSpawnFire
                     [Elapse 250; TickFire; Elapse 250; TickFire; Elapse 200;
                      SpawnFire still; Tap (uid 700 "8")])).
Proof.
  reached (run W H (initial 0) [PressStart]).
  reached (run W H (initial 0) (one_heart ++ [Tap (uid 700 "8")])).
  split; [by_run|]. split; [by_run|]. split; [by_run|].
  match goal with
  | |- 0 <= score ?st' <= Z.of_nat (List.length (filter _ ?es)) =>
      exact (score_is_bounded_by_spawns W H (initial 0) _ st' 0 es
               ltac:(by_run) ltac:(by_run))
  end.
Defined.

(** X5, witness: one second into level 1. *)
Lemma nineteen_seconds_left :
  exists st,
    run W H (initial 0) [PressStart; Elapse 1000; TickFire] = Some st /\
    reachable W H st /\
    timeLeft st = 19 /\
    exists lv, current st = Some lv /\
      0 <= timeLeft st <= ceil_div (durationMs lv) 1000 /\
      1000 * timeLeft st <= durationMs lv.
Proof.
  reached (run W H (initial 0) [PressStart; Elapse 1000; TickFire]).
  match goal with
  | |- _ /\ reachable _ _ ?st /\ _ =>
      assert (reachable W H st) as R by reach_by [PressStart; Elapse 1000; TickFire];
      pose proof (time_left_is_within_the_level W H st R) as T
  end.
  split; [by_run|]. split; [exact R|]. split; [by_run | exact T].
Defined.

(** X6, witness: level 1 just started. *)
Lemma level_one_just_started :
  exists st,
    run W H (initial 0) [PressStart] = Some st /\
    reachable W H st /\
    phase st = playing /\
    (exists tk, tickTimer st = Some tk) /\
    (exists sp, spawnTimer st = Some sp).
Proof.
  reached (run W H (initial 0) [PressStart]).
  match goal with
  | |- _ /\ reachable _ _ ?st /\ _ =>
      assert (reachable W H st) as R by reach_by [PressStart];
      pose proof (timers_are_armed_while_playing W H st R) as (Htk & Hsp & _)
  end.
  split; [by_run|]. split; [exact R|]. split; [by_run|].
  split; [apply Htk; by_run | apply Hsp; by_run].
Defined.

(** X7, witness: with one heart in flight on level 1 nothing raises. *)
Lemma nothing_raises_on_level_one :
  exists st,
    run W H (initial 0) one_heart = Some st /\
    reachable W H st /\
    (exists lv, current st = Some lv) /\
    (forall seen s, exists s', endLevel seen (levelIndex st) s = Returned s').
Proof.
  reached (run W H (initial 0) one_heart).
  match goal with
  | |- _ /\ reachable _ _ ?st /\ _ =>
      assert (reachable W H st) as R by reach_by one_heart;
      pose proof (handlers_do_not_raise W H st R) as (Hcur & _ & _ & Hend)
  end.
  split; [by_run|]. split; [exact R|]. split; [exact Hcur | exact Hend].
Defined.

(** X8, witness: level 1 finished at once, with no point. *)
Lemma finished_without_a_point :
  exists st,
    run W H (initial 0) [PressStart; PressFinish] = Some st /\
    phase st = reward /\
    current st = Some {| level := 1; durationMs := 20000; target := 18;
                         spawnEveryMs := 700; fallMs := 2800 |} /\
    offered Retry st = true /\ offered NextLevel st = false /\
    (offered Retry st = true <-> score st < 18).
Proof.
  reached (run W H (initial 0) [PressStart; PressFinish]).
  match goal with
  | |- _ /\ phase ?st = _ /\ _ =>
      pose proof (reward_screen_offers_one_way_on st _
                    (ltac:(by_run) : phase st = reward)
                    (ltac:(by_run) :
                       current st = Some {| level := 1; durationMs := 20000;
                                            target := 18; spawnEveryMs := 700;
                                            fallMs := 2800 |}))
        as (HR & _)
  end.
  split; [by_run|]. split; [by_run|]. split; [by_run|].
  split; [by_run|]. split; [by_run | exact HR].
Defined.

(** X9, witness: Next Level after 18 points on level 1. *)
Lemma next_level_after_18_points :
  exists st',
    step W H (setPhase reward (setScore 18 (initial 0))) PressNext = Some st' /\
    levelIndex st' = 1%nat /\
    (levelIndex st' = levelIndex (setPhase reward (setScore 18 (initial 0))) \/
     (PressNext = PressStart /\
      phase (setPhase reward (setScore 18 (initial 0))) = intro /\
      levelIndex st' = 0%nat) \/
     (PressNext = PressNext /\
      phase (setPhase reward (setScore 18 (initial 0))) = reward /\
      levelIndex st' = S (levelIndex (setPhase reward (setScore 18 (initial 0)))) /\
      exists lv, current (setPhase reward (setScore 18 (initial 0))) = Some lv /\
                 target lv <= score (setPhase reward (setScore 18 (initial 0))))).
Proof.
  reached (step W H (setPhase reward (setScore 18 (initial 0))) PressNext).
  split; [by_run|]. split; [by_run|].
  match goal with
  | |- levelIndex ?st' = _ \/ _ =>
      exact (levels_are_not_skipped W H
               (setPhase reward (setScore 18 (initial 0))) st' PressNext
               ltac:(by_run))
  end.
Defined.

(** X10, witness: after the run that ends in the proposal phase, pressing
    YES, waiting and letting the grace timeout fire changes nothing of it. *)
Lemma yes_stays_on_the_proposal :
  exists st st',
    run W H (initial 0) (idle_final_level W H) = Some st /\
    reachable W H st /\
    phase st = proposal /\
    run W H st [PressYes; Elapse 250; GraceFire; PressYes] = Some st' /\
    phase st' = proposal /\ levelIndex st' = levelIndex st /\
    S (levelIndex st') = List.length LEVELS /\
    tickTimer st' = None /\ spawnTimer st' = None.
Proof.
  reached (run W H (initial 0) (idle_final_level W H)).
  reached (run W H (initial 0)
             (idle_final_level W H ++ [PressYes; Elapse 250; GraceFire; PressYes])).
  match goal with
  | |- _ /\ reachable _ _ ?st /\ _ /\ run _ _ _ ?es = Some ?st' /\ _ =>
      assert (reachable W H st) as R by reach_by (idle_final_level W H);
      pose proof (proposal_is_never_left W H st st' es R
                    ltac:(by_run) ltac:(by_run)) as T
  end.
  split; [by_run|]. split; [exact R|]. split; [by_run|]. split; [by_run | exact T].
Defined.

(** X11, witness: level 1 left alone until its countdown runs out. *)
Lemma level_one_runs_out :
  exists st st' tk lv,
    run W H (initial 0) [PressStart; Elapse 20000] = Some st /\
    reachable W H st /\
    tickTimer st = Some tk /\
    nth_error LEVELS (tk_idx tk) = Some lv /\
    (S (tk_idx tk) < List.length LEVELS)%nat /\
    remaining lv (tk_startAt tk) (now st) = 0 /\
    step W H st TickFire = Some st' /\
    phase st' = reward /\ score st' = score st /\
    (offered NextLevel st' = true <-> target lv <= score st) /\
    (offered Retry st' = true <-> score st < target lv) /\
    offered OpenSurprise st' = false.
Proof.
  reached (run W H (initial 0) [PressStart; Elapse 20000]).
  reached (run W H (initial 0) [PressStart; Elapse 20000; TickFire]).
  exists {| tk_idx := 0; tk_startAt := 0; tk_score := 0; tk_due := 250 |}.
  exists {| level := 1; durationMs := 20000; target := 18;
            spawnEveryMs := 700; fallMs := 2800 |}.
  match goal with
  | |- _ /\ reachable _ _ ?st /\ tickTimer _ = Some ?tk /\
       nth_error _ _ = Some ?lv /\ _ /\ _ /\ step _ _ _ _ = Some ?st' /\ _ =>
      assert (reachable W H st) as R by reach_by [PressStart; Elapse 20000];
      pose proof (expiry_before_the_last_level_shows_the_live_result
                    W H st st' tk lv R ltac:(by_run) ltac:(by_run)
                    ltac:(cbn; lia) ltac:(by_run) ltac:(by_run)) as T
  end.
  split; [by_run|]. split; [exact R|]. split; [by_run|]. split; [by_run|].
  split; [cbn; lia|]. split; [by_run|]. split; [by_run | exact T].
Defined.

(** X12, witness: Finish pressed on level 1 after one point. *)
Lemma finish_after_one_point :
  exists st st',
    run W H (initial 0) (one_heart ++ [Tap (uid 700 "8")]) = Some st /\
    current st = Some {| level := 1; durationMs := 20000; target := 18;
                         spawnEveryMs := 700; fallMs := 2800 |} /\
    step W H st PressFinish = Some st' /\
    score st' = 1 /\ phase st' = reward /\ offered Retry st' = true /\
    tickTimer st' = None /\ spawnTimer st' = None.
Proof.
  reached (run W H (initial 0) (one_heart ++ [Tap (uid 700 "8")])).
  reached (run W H (initial 0) (one_heart ++ [Tap (uid 700 "8"); PressFinish])).
  match goal with
  | |- _ /\ current ?st = Some ?lv /\ step _ _ _ _ = Some ?st' /\ _ =>
      pose proof (finish_decides_from_the_live_score W H st st' lv
                    ltac:(by_run) ltac:(by_run))
        as (Hsc & Htk & Hsp & _ & Hrew & Hretry & _)
  end.
  split; [by_run|]. split; [by_run|]. split; [by_run|].
  split; [rewrite Hsc; by_run|].
  split; [apply Hrew; left; vm_compute; reflexivity|].
  split; [apply Hretry; vm_compute; reflexivity|].
  split; [exact Htk | exact Hsp].
Defined.
